(** * The SPIFFE sidecar: a shallow embedding of [pkg/sidecar]

  The development follows the Go source of the sidecar: the retry and
  refresh schedulers of the JWT SVID loop, one credential cycle, the
  daemon entry point, the health bookkeeping with the heap objects it
  shares with its callers, the child-process side channel and the
  argument splitter.

  Conventions.
  - A Go [error] value is [option error]; [None] is [nil].
  - [time.Duration] is an [int64] count of nanoseconds: a [Z] with the
    wrap-around of [int64] arithmetic written out ([wrap64]).
  - A Go panic is the [Panicked] constructor of [outcome].
  - Calls that leave the package (the Workload API client, the disk
    writer, [os/exec], the task runner) are inputs of the model: each
    operation takes the results those calls gave. *)

From Stdlib Require Import ZArith Lia Ascii.
From stdpp Require Import gmap strings list fin_maps sorting.

Open Scope Z_scope.

(* ===================================================================== *)
(** * Go values used throughout                                           *)
(* ===================================================================== *)

Module Go.

(** [error] values. [context.Canceled] is the sentinel of package
    [context]; [wrapError] is what [fmt.Errorf] with the [%w] verb
    builds; any other error is an [errorString]. *)
Inductive error : Type :=
| context_Canceled
| errorString (msg : string)
| wrapError (msg : string) (err : error).

(** [errors.Is(err, context.Canceled)]: walks the [Unwrap] chain. *)
Fixpoint errors_Is_Canceled (err : error) : bool :=
  match err with
  | context_Canceled => true
  | errorString _ => false
  | wrapError _ inner => errors_Is_Canceled inner
  end.

(** The result of a computation that may panic. *)
Inductive outcome (A : Type) : Type :=
| Done (a : A)
| Panicked (msg : string).
Arguments Done {A} a.
Arguments Panicked {A} msg.

Definition bind {A B : Type} (m : outcome A) (k : A -> outcome B) : outcome B :=
  match m with
  | Done a => k a
  | Panicked msg => Panicked msg
  end.

(** [int64] wrap-around. *)
Definition wrap64 (z : Z) : Z := (z + 2 ^ 63) mod 2 ^ 64 - 2 ^ 63.

Definition minInt64 : Z := - 2 ^ 63.
Definition maxInt64 : Z := 2 ^ 63 - 1.

Definition int64_mul (a b : Z) : Z := wrap64 (a * b).
Definition int64_add (a b : Z) : Z := wrap64 (a + b).
(** Go integer division truncates toward zero. *)
Definition int64_div (a b : Z) : Z := wrap64 (Z.quot a b).


End Go.

Import Go.

(* ===================================================================== *)
(** * Package time                                                        *)
(* ===================================================================== *)

Module Time.

(** [time.Duration]: nanoseconds in an [int64]. *)
Definition Duration : Type := Z.

Definition Nanosecond : Duration := 1.
Definition Second : Duration := 1000000000.

Definition minDuration : Duration := minInt64.
Definition maxDuration : Duration := maxInt64.

(** An instant ([time.Time]) as nanoseconds on the wall clock. *)
Definition Time : Type := Z.

(** [t.Sub(u)]: the duration [t - u], saturated at the smallest and
    largest [Duration] when the difference does not fit. *)
Definition Sub (t u : Time) : Duration :=
  let d := t - u in
  if d <? minDuration then minDuration
  else if maxDuration <? d then maxDuration
  else d.

(** [time.Until(t)] is [t.Sub(time.Now())]; the clock reading is the
    argument [now]. *)
Definition Until (now t : Time) : Duration := Sub t now.




End Time.

(* ===================================================================== *)
(** * RetryScheduler: [createRetryIntervalFunc]                           *)
(* ===================================================================== *)

Module Retry.
Import Time.

Definition initialBackoff : Duration := 1 * Second.
Definition maxBackoff : Duration := 60 * Second.
Definition multiplier : Z := 2.

(** The closure returned by [createRetryIntervalFunc] captures one
    variable, [backoffInterval]; the closure value is that variable. *)
Definition retryFunc : Type := Duration.

Definition createRetryIntervalFunc : retryFunc := initialBackoff.

(** One call of the closure: the value it returns and the closure
    after the call. *)
Definition call (backoffInterval : retryFunc) : Duration * retryFunc :=
  let currentBackoff := backoffInterval in
  let backoffInterval := int64_mul backoffInterval multiplier in
  let backoffInterval :=
    if maxBackoff <? backoffInterval then maxBackoff else backoffInterval in
  (currentBackoff, backoffInterval).

(** [n] consecutive calls of one closure: the values returned, in
    order, and the closure afterwards. *)
Fixpoint calls (n : nat) (f : retryFunc) : list Duration * retryFunc :=
  match n with
  | O => ([], f)
  | S n' =>
      let '(d, f') := call f in
      let '(ds, f'') := calls n' f' in
      (d :: ds, f'')
  end.

(** The values the captured variable takes. *)
Definition inRange (f : retryFunc) : Prop := initialBackoff <= f <= maxBackoff.

(** What clamped doubling means on mathematical integers. *)
Definition doubled_clamped (d : Duration) : Duration := Z.min (2 * d) maxBackoff.

End Retry.

(* ===================================================================== *)
(** * RefreshScheduler: [getRefreshInterval]                              *)
(* ===================================================================== *)

Module Refresh.
Import Time.

(** [jwtsvid.SVID], as far as the sidecar reads it. *)
Record SVID : Type := mkSVID {
  svid_ID : string;
  svid_Expiry : Time;
  svid_token : string
}.

(** [time.Until(svid.Expiry)/2 + time.Second] *)
Definition getRefreshInterval (now : Time) (svid : SVID) : Duration :=
  int64_add (int64_div (Until now (svid_Expiry svid)) 2) Second.

End Refresh.

(* ===================================================================== *)
(** * The sidecar configuration                                           *)
(* ===================================================================== *)

Module Cfg.

Record JWTConfig : Type := mkJWTConfig {
  JWTAudience : string;
  JWTExtraAudiences : list string;
  JWTSVIDFilename : string
}.

(** [sidecar.Config]: the fields the sidecar reads. [ReloadExternalProcess]
    is a function value or [nil]; here only whether it is set. *)
Record Config : Type := mkConfig {
  Cmd : string;
  CmdArgs : string;
  PIDFilename : string;
  CertDir : string;
  RenewSignal : string;
  SVIDFilename : string;
  SVIDKeyFilename : string;
  SVIDBundleFilename : string;
  JWTSVIDs : list JWTConfig;
  JWTBundleFilename : string;
  ParallelRequests : Z;
  Hint : string;
  ReloadExternalProcess : bool
}.

Definition nonempty (s : string) : bool := negb (String.eqb s EmptyString).

Definition x509Enabled (c : Config) : bool :=
  nonempty (SVIDFilename c) && nonempty (SVIDKeyFilename c) && nonempty (SVIDBundleFilename c).

Definition jwtBundleEnabled (c : Config) : bool := nonempty (JWTBundleFilename c).

Definition jwtSVIDsEnabled (c : Config) : bool := (0 <? length (JWTSVIDs c))%nat.

End Cfg.

(* ===================================================================== *)
(** * [encoding/csv]: one [Read] of a reader over a string                *)
(* ===================================================================== *)

Module Csv.

Definition quote : ascii := "034"%char.
Definition LF : ascii := "010"%char.
Definition CR : ascii := "013"%char.
Definition NUL : ascii := "000"%char.

Definition EOF : error := errorString "EOF".
Definition ErrBareQuote : error :=
  wrapError "parse error" (errorString "bare quote in non-quoted field").
Definition ErrQuote : error :=
  wrapError "parse error" (errorString "extraneous or missing quote in quoted field").
Definition errInvalidDelim : error := errorString "csv: invalid field or comment delimiter".

Definition validDelim (r : ascii) : bool :=
  negb (Ascii.eqb r NUL) && negb (Ascii.eqb r quote)
  && negb (Ascii.eqb r CR) && negb (Ascii.eqb r LF).

(** The bytes the reader's successive [readLine] calls hand out, one
    line after the other: a carriage return before a line feed is
    dropped, and so is a carriage return that ends the input. *)
Fixpoint readLines (input : list ascii) : list ascii :=
  match input with
  | [] => []
  | c :: rest =>
      if Ascii.eqb c CR then
        match rest with
        | [] => []
        | c' :: _ => if Ascii.eqb c' LF then readLines rest else c :: readLines rest
        end
      else c :: readLines rest
  end.

(** Lines that hold nothing but their line feed are skipped before a
    record starts. *)
Fixpoint skipEmptyLines (lines : list ascii) : list ascii :=
  match lines with
  | [] => []
  | c :: rest => if Ascii.eqb c LF then skipEmptyLines rest else lines
  end.

(** Where [readRecord] stands inside a record. *)
Inductive position : Type :=
| FieldStart     (* at the first byte of a field *)
| NonQuoted      (* inside a field that did not open with a quote *)
| Quoted         (* inside a quoted field *)
| QuoteSeen.     (* just after a quote inside a quoted field *)

Definition endField (field : list ascii) (fields : list string) : list string :=
  String.string_of_list_ascii (rev field) :: fields.

(** [readRecord] with [LazyQuotes], [TrimLeadingSpace] and [Comment]
    unset: [field] and [fields] are the bytes of the open field and the
    fields closed so far, latest first. *)
Fixpoint readRecord (comma : ascii) (pos : position) (field : list ascii)
    (fields : list string) (line : list ascii) : list string + error :=
  match line with
  | [] =>
      match pos with
      | Quoted => inr ErrQuote
      | _ => inl (rev (endField field fields))
      end
  | c :: rest =>
      match pos with
      | FieldStart =>
          if Ascii.eqb c quote then readRecord comma Quoted [] fields rest
          else if Ascii.eqb c comma then readRecord comma FieldStart [] (endField [] fields) rest
          else if Ascii.eqb c LF then inl (rev (endField [] fields))
          else readRecord comma NonQuoted [c] fields rest
      | NonQuoted =>
          if Ascii.eqb c quote then inr ErrBareQuote
          else if Ascii.eqb c comma then readRecord comma FieldStart [] (endField field fields) rest
          else if Ascii.eqb c LF then inl (rev (endField field fields))
          else readRecord comma NonQuoted (c :: field) fields rest
      | Quoted =>
          if Ascii.eqb c quote then readRecord comma QuoteSeen field fields rest
          else readRecord comma Quoted (c :: field) fields rest
      | QuoteSeen =>
          if Ascii.eqb c quote then readRecord comma Quoted (quote :: field) fields rest
          else if Ascii.eqb c comma then readRecord comma FieldStart [] (endField field fields) rest
          else if Ascii.eqb c LF then inl (rev (endField field fields))
          else inr ErrQuote
      end
  end.

(** [csv.NewReader(strings.NewReader(input))] with [Comma] set, then one
    [Read]. *)
Definition Read (comma : ascii) (input : string) : list string + error :=
  if validDelim comma then
    match skipEmptyLines (readLines (String.list_ascii_of_string input)) with
    | [] => inr EOF
    | line => readRecord comma FieldStart [] [] line
    end
  else inr errInvalidDelim.

(** The fields of a line cut at every occurrence of [sep]. *)
Fixpoint split (sep : ascii) (field : list ascii) (line : list ascii) : list string :=
  match line with
  | [] => [String.string_of_list_ascii (rev field)]
  | c :: rest =>
      if Ascii.eqb c sep then String.string_of_list_ascii (rev field) :: split sep [] rest
      else split sep (c :: field) rest
  end.

End Csv.

Module Args.

Definition space : ascii := " "%char.

Definition getCmdArgs (args : string) : list string + error :=
  if String.eqb args EmptyString then inl []
  else
    match Csv.Read space args with
    | inr err => inr err
    | inl cmdArgs => inl cmdArgs
    end.

End Args.

(* ===================================================================== *)
(** * The sidecar                                                         *)
(* ===================================================================== *)

Module Sidecar.
Import Cfg Time Retry Refresh.

Definition writeStatusUnwritten : string := "unwritten".
Definition writeStatusFailed : string := "failed".
Definition writeStatusWritten : string := "written".

(** ** The heap objects the health state points to

    [X509WriteStatus] is a [*string] and [JWTWriteStatus] a
    [map[string]string]: both are references. The heap holds the string
    variables whose address was taken and the map objects made so far; a
    reference is an index into it. *)
Abbreviation loc := nat (only parsing).

Record Heap : Type := mkHeap {
  stringVars : list string;
  mapObjs : list (gmap string string)
}.

(** [v := value; &v]: a fresh string variable and its address. *)
Definition newString (h : Heap) (value : string) : Heap * loc :=
  (mkHeap (stringVars h ++ [value]) (mapObjs h), length (stringVars h)).

(** [make(map[string]string)] *)
Definition makeMap (h : Heap) : Heap * loc :=
  (mkHeap (stringVars h) (mapObjs h ++ [∅]), length (mapObjs h)).

(** [m[k] = v] on the map object at [m]. The one map reference of a
    sidecar comes from [make] in [New], so it is never nil. *)
Definition mapAssign (h : Heap) (m : loc) (k v : string) : Heap :=
  mkHeap (stringVars h) (alter (<[k:=v]>) m (mapObjs h)).

(** [*p] *)
Definition deref (h : Heap) (p : loc) : option string := stringVars h !! p.

(** The entries of the map object at [m]. *)
Definition mapAt (h : Heap) (m : loc) : gmap string string :=
  default ∅ (mapObjs h !! m).

(** ** Sidecar state *)

(** An [*os.Process]: the process it is the handle of. *)
Definition Process : Type := Z.

Record FileWriteStatuses : Type := mkFileWriteStatuses {
  X509WriteStatus : option loc;
  JWTWriteStatus : loc
}.

Record Health : Type := mkHealth {
  health_FileWriteStatuses : FileWriteStatuses
}.

Record Sidecar : Type := mkSidecar {
  config : Config;
  processRunning : bool;
  process : option Process;
  health : Health
}.

(** The sidecar and the heap it lives in. *)
Record World : Type := mkWorld {
  heap : Heap;
  sidecar : Sidecar
}.

Definition x509WriteStatusOf (s : Sidecar) : option loc :=
  X509WriteStatus (health_FileWriteStatuses (health s)).

Definition jwtWriteStatusOf (s : Sidecar) : loc :=
  JWTWriteStatus (health_FileWriteStatuses (health s)).

(** [s.health.FileWriteStatuses.X509WriteStatus = &writeStatus] *)
Definition setX509WriteStatus (w : World) (writeStatus : string) : World :=
  let '(h, p) := newString (heap w) writeStatus in
  let s := sidecar w in
  mkWorld h
    (mkSidecar (config s) (processRunning s) (process s)
       (mkHealth (mkFileWriteStatuses (Some p) (jwtWriteStatusOf s)))).

(** [s.health.FileWriteStatuses.JWTWriteStatus[path] = writeStatus] *)
Definition setJWTWriteStatus (w : World) (path writeStatus : string) : World :=
  mkWorld (mapAssign (heap w) (jwtWriteStatusOf (sidecar w)) path writeStatus) (sidecar w).

(** What the calls that leave the package returned. *)
Record ProcEnv : Type := mkProcEnv {
  cmd_Start : Process + error;          (* [cmd.Start()]: the child, or an error *)
  SignalProcess_err : option error      (* [SignalProcess(process, signal)] *)
}.

Record X509Env : Type := mkX509Env {
  WriteX509Context_err : option error;  (* [disk.WriteX509Context(...)] *)
  x509_proc : ProcEnv;
  signalPID_err : option error;         (* reading the pid file and signalling *)
  Reload_err : option error             (* [config.ReloadExternalProcess()] *)
}.

Record JWTEnv : Type := mkJWTEnv {
  FetchJWTSVIDs_res : list SVID + error;        (* [jwtSource.FetchJWTSVIDs] *)
  ParseAndValidate_err : SVID -> option error;  (* [jwtsvid.ParseAndValidate] *)
  WriteJWTSVID_err : list SVID -> option error; (* [disk.WriteJWTSVID] *)
  Now : Time                                    (* the clock at [time.Until] *)
}.

(** What the sidecar does to the outside, in order. *)
Inductive Event : Type :=
| EvStart (cmd : string) (args : list string) (child : Process)
| EvStartFailed (cmd : string) (args : list string)
| EvGoCheckProcessExit
| EvSignal (target : option Process) (signal : string)
| EvSignalPID
| EvReload
| EvCertReady.

(** ** The child process *)

Definition signalProcess (s : Sidecar) (env : ProcEnv) : Sidecar * option error * list Event :=
  if negb (processRunning s) then
    match Args.getCmdArgs (CmdArgs (config s)) with
    | inr err => (s, Some (wrapError "error parsing cmd arguments" err), [])
    | inl cmdArgs =>
        match cmd_Start env with
        | inr err =>
            (s, Some (wrapError "error executing process" err),
             [EvStartFailed (Cmd (config s)) cmdArgs])
        | inl child =>
            (mkSidecar (config s) true (Some child) (health s), None,
             [EvStart (Cmd (config s)) cmdArgs child; EvGoCheckProcessExit])
        end
    end
  else
    match SignalProcess_err env with
    | Some err => (s, Some err, [EvSignal (process s) (RenewSignal (config s))])
    | None => (s, None, [EvSignal (process s) (RenewSignal (config s))])
    end.

(** [checkProcessExit] holds the mutex twice: to read the handle it
    waits on, and, once the child has exited, to clear the flag. *)
Definition checkProcessExit_enter (s : Sidecar) : outcome (option Process) :=
  if negb (processRunning s) then Panicked "checkProcessExit called with no process running"
  else Done (process s).

Definition checkProcessExit_leave (s : Sidecar) : Sidecar :=
  mkSidecar (config s) false (process s) (health s).

(** ** X.509 updates *)

Definition updateCertificates (w : World) (env : X509Env) : World * list Event :=
  match WriteX509Context_err env with
  | Some err => (setX509WriteStatus w writeStatusFailed, [])
  | None =>
      let w := setX509WriteStatus w writeStatusWritten in
      let '(s, ev1) :=
        if nonempty (Cmd (config (sidecar w))) then
          let '(s, _, ev) := signalProcess (sidecar w) (x509_proc env) in (s, ev)
        else (sidecar w, []) in
      let ev2 := if nonempty (PIDFilename (config s)) then [EvSignalPID] else [] in
      let ev3 := if ReloadExternalProcess (config s) then [EvReload] else [] in
      (mkWorld (heap w) s, ev1 ++ ev2 ++ ev3 ++ [EvCertReady])
  end.

(** ** JWT SVIDs *)

(** The validation loop of [fetchJWTSVIDs]: the first error ends it. *)
Fixpoint validateAll (validate : SVID -> option error) (jwtSVIDs : list SVID) : option error :=
  match jwtSVIDs with
  | [] => None
  | jwtSVID :: rest =>
      match validate jwtSVID with
      | Some err => Some err
      | None => validateAll validate rest
      end
  end.

(** [fetchJWTSVIDs]. The audiences only travel to the two calls that
    leave the package, whose results are in [env]. *)
Definition fetchJWTSVIDs (env : JWTEnv) : list SVID + error :=
  match FetchJWTSVIDs_res env with
  | inr err => inr err
  | inl jwtSVIDs =>
      match validateAll (ParseAndValidate_err env) jwtSVIDs with
      | Some err => inr err
      | None => inl jwtSVIDs
      end
  end.

(** [jwtSVIDs[0]] *)
Definition index0 (jwtSVIDs : list SVID) : outcome SVID :=
  match jwtSVIDs with
  | [] => Panicked "index out of range [0] with length 0"
  | jwtSVID :: _ => Done jwtSVID
  end.

(** [time.NewTicker(d)] and [ticker.Reset(d)] panic unless [d] is
    positive; the ticker is its period. *)
Definition NewTicker (d : Duration) : outcome Duration :=
  if d <=? 0 then Panicked "non-positive interval for NewTicker" else Done d.

Definition ticker_Reset (d : Duration) : outcome Duration :=
  if d <=? 0 then Panicked "non-positive interval for Ticker.Reset" else Done d.

(** The variables of [updateJWTSVID] that live across iterations. *)
Record Loop : Type := mkLoop {
  retryInterval : retryFunc;
  ticker : Duration;
  world : World
}.

Section WithPathJoin.

(** [path.Join] of the standard library, on two elements. *)
Variable path_Join : string -> string -> string.

Definition setupHealth (w : World) : World :=
  let cfg := config (sidecar w) in
  let w := if x509Enabled cfg then setX509WriteStatus w writeStatusUnwritten else w in
  let w :=
    if jwtBundleEnabled cfg then
      setJWTWriteStatus w (path_Join (CertDir cfg) (JWTBundleFilename cfg)) writeStatusUnwritten
    else w in
  fold_left
    (fun w jwtConfig =>
       setJWTWriteStatus w (path_Join (CertDir cfg) (JWTSVIDFilename jwtConfig)) writeStatusUnwritten)
    (JWTSVIDs cfg) w.

(** [New(config)], in the heap [h]. *)
Definition New (h : Heap) (cfg : Config) : World :=
  let '(h, m) := makeMap h in
  setupHealth (mkWorld h (mkSidecar cfg false None (mkHealth (mkFileWriteStatuses None m)))).

Definition performJWTSVIDUpdate (w : World) (jwtSVIDFilename : string) (env : JWTEnv)
  : World * (list SVID + error) :=
  match fetchJWTSVIDs env with
  | inr err => (w, inr err)
  | inl jwtSVIDs =>
      let jwtSVIDPath := path_Join (CertDir (config (sidecar w))) jwtSVIDFilename in
      match WriteJWTSVID_err env jwtSVIDs with
      | Some err => (setJWTWriteStatus w jwtSVIDPath writeStatusFailed, inr err)
      | None => (setJWTWriteStatus w jwtSVIDPath writeStatusWritten, inl jwtSVIDs)
      end
  end.

(** [updateJWTSVID] up to the loop: the first update and the ticker. *)
Definition updateJWTSVID_start (w : World) (jwtSVIDFilename : string) (env : JWTEnv)
  : outcome Loop :=
  let retryInterval := createRetryIntervalFunc in
  let '(w, res) := performJWTSVIDUpdate w jwtSVIDFilename env in
  match res with
  | inr _ =>
      let '(initialInterval, retryInterval) := call retryInterval in
      bind (NewTicker initialInterval) (fun t => Done (mkLoop retryInterval t w))
  | inl jwtSVIDs =>
      bind (index0 jwtSVIDs) (fun jwtSVID =>
      bind (NewTicker (getRefreshInterval (Now env) jwtSVID)) (fun t =>
      Done (mkLoop retryInterval t w)))
  end.

(** One iteration of the loop on [<-ticker.C]. *)
Definition updateJWTSVID_tick (l : Loop) (jwtSVIDFilename : string) (env : JWTEnv)
  : outcome Loop :=
  let '(w, res) := performJWTSVIDUpdate (world l) jwtSVIDFilename env in
  match res with
  | inl jwtSVIDs =>
      let retryInterval := createRetryIntervalFunc in
      bind (index0 jwtSVIDs) (fun jwtSVID =>
      bind (ticker_Reset (getRefreshInterval (Now env) jwtSVID)) (fun t =>
      Done (mkLoop retryInterval t w)))
  | inr _ =>
      let '(d, retryInterval) := call (retryInterval l) in
      bind (ticker_Reset d) (fun t => Done (mkLoop retryInterval t w))
  end.

(** The loop over the ticks that fire before [ctx.Done()]; with the
    final state, the periods the ticker was set to, in order. *)
Fixpoint updateJWTSVID_loop (l : Loop) (jwtSVIDFilename : string) (ticks : list JWTEnv)
  : outcome (Loop * list Duration) :=
  match ticks with
  | [] => Done (l, [])
  | env :: ticks =>
      bind (updateJWTSVID_tick l jwtSVIDFilename env) (fun l =>
      bind (updateJWTSVID_loop l jwtSVIDFilename ticks) (fun '(l', ds) =>
      Done (l', ticker l :: ds)))
  end.

Definition updateJWTSVID (w : World) (jwtSVIDFilename : string) (env : JWTEnv)
    (ticks : list JWTEnv) : outcome (Loop * list Duration) :=
  bind (updateJWTSVID_start w jwtSVIDFilename env) (fun l =>
  bind (updateJWTSVID_loop l jwtSVIDFilename ticks) (fun '(l', ds) =>
  Done (l', ticker l :: ds))).

(** ** JWT bundles *)

Definition OnJWTBundlesUpdate (w : World) (WriteJWTBundleSet_err : option error) : World :=
  let cfg := config (sidecar w) in
  let jwtBundleFilePath := path_Join (CertDir cfg) (JWTBundleFilename cfg) in
  match WriteJWTBundleSet_err with
  | Some err => setJWTWriteStatus w jwtBundleFilePath writeStatusFailed
  | None => setJWTWriteStatus w jwtBundleFilePath writeStatusWritten
  end.

End WithPathJoin.

(** ** Health probes *)

(** The [range] loops of the two probes: [false] when the loop returns
    [false], [true] when it runs to its end. *)
Fixpoint noneFailed (statuses : list string) : bool :=
  match statuses with
  | [] => true
  | writeStatus :: rest =>
      if String.eqb writeStatus writeStatusFailed then false else noneFailed rest
  end.

Fixpoint allWritten (statuses : list string) : bool :=
  match statuses with
  | [] => true
  | writeStatus :: rest =>
      if negb (String.eqb writeStatus writeStatusWritten) then false else allWritten rest
  end.

(** The values a [range] over the map visits, in the order it visits them. *)
Definition rangeValues (w : World) : list string :=
  (map_to_list (mapAt (heap w) (jwtWriteStatusOf (sidecar w)))).*2.

(** [*s.health.FileWriteStatuses.X509WriteStatus] *)
Definition derefX509WriteStatus (w : World) : outcome string :=
  match x509WriteStatusOf (sidecar w) with
  | None => Panicked "nil pointer dereference"
  | Some p =>
      match deref (heap w) p with
      | Some v => Done v
      | None => Panicked "nil pointer dereference"
      end
  end.

Definition CheckLiveness (w : World) : outcome bool :=
  if negb (noneFailed (rangeValues w)) then Done false
  else if x509Enabled (config (sidecar w)) then
    bind (derefX509WriteStatus w) (fun v =>
    if String.eqb v writeStatusFailed then Done false else Done true)
  else Done true.

Definition CheckReadiness (w : World) : outcome bool :=
  if negb (allWritten (rangeValues w)) then Done false
  else if negb (x509Enabled (config (sidecar w))) then Done true
  else bind (derefX509WriteStatus w) (fun v => Done (String.eqb v writeStatusWritten)).

(** [GetHealth] returns the [Health] struct by value: the two
    references in it are copied, not what they point to. *)
Definition GetHealth (w : World) : Health := health (sidecar w).

(** What a holder of a [Health] value reads through it in heap [h]. *)
Definition readX509 (h : Heap) (v : Health) : option string :=
  match X509WriteStatus (health_FileWriteStatuses v) with
  | None => None
  | Some p => deref h p
  end.

Definition readJWT (h : Heap) (v : Health) : gmap string string :=
  mapAt h (JWTWriteStatus (health_FileWriteStatuses v)).

(** ** One credential cycle *)

(** The three steps of a cycle; their bodies are outside this file, so a
    cycle takes what each step returns when it is called. *)
Inductive Step : Type :=
| fetchAndWriteX509Context
| fetchAndWriteJWTBundle
| fetchAndWriteJWTSVIDs.

(** [if enabled { if err := step(ctx); err != nil { return err } }; rest]:
    the steps called, in order, and the error returned. *)
Definition guarded (enabled : bool) (step : Step) (result : Step -> option error)
    (rest : list Step * option error) : list Step * option error :=
  if enabled then
    match result step with
    | Some err => ([step], Some err)
    | None => (step :: rest.1, rest.2)
    end
  else rest.

Definition fetchAllCredentials (cfg : Config) (result : Step -> option error)
  : list Step * option error :=
  guarded (x509Enabled cfg) fetchAndWriteX509Context result
    (guarded (jwtBundleEnabled cfg) fetchAndWriteJWTBundle result
       (guarded (jwtSVIDsEnabled cfg) fetchAndWriteJWTSVIDs result
          ([], None))).

(** The steps a configuration enables, in the order of the source. *)
Definition enabledSteps (cfg : Config) : list Step :=
  (if x509Enabled cfg then [fetchAndWriteX509Context] else [])
  ++ (if jwtBundleEnabled cfg then [fetchAndWriteJWTBundle] else [])
  ++ (if jwtSVIDsEnabled cfg then [fetchAndWriteJWTSVIDs] else []).

(** ** The daemon *)

Inductive Task : Type :=
| runParallelDaemon
| watchX509Context
| watchJWTBundles
| watchJWTSVIDs.

(** The [tasks] slice [RunDaemon] builds. *)
Definition daemonTasks (cfg : Config) : list Task :=
  if 0 <? ParallelRequests cfg then [runParallelDaemon]
  else
    (if x509Enabled cfg then [watchX509Context] else [])
    ++ (if jwtBundleEnabled cfg then [watchJWTBundles] else [])
    ++ (if jwtSVIDsEnabled cfg then [watchJWTSVIDs] else []).

(** [RunDaemon], given what [setupClients] and [util.RunTasks] return. *)
Definition RunDaemon (cfg : Config) (setupClients_err : option error)
    (RunTasks : list Task -> option error) : option error :=
  match setupClients_err with
  | Some err => Some err
  | None =>
      let err := RunTasks (daemonTasks cfg) in
      match err with
      | Some e => if negb (errors_Is_Canceled e) then None else err
      | None => err
      end
  end.

(** ** Runs of the sidecar *)

(** What happens to a sidecar after [New]: the watcher callbacks, the
    JWT SVID updates, and the exit of the child. *)
Inductive Op : Type :=
| OpX509Update (env : X509Env)
| OpJWTBundlesUpdate (WriteJWTBundleSet_err : option error)
| OpJWTSVIDUpdate (jwtSVIDFilename : string) (env : JWTEnv)
| OpChildExit.

Definition apply (path_Join : string -> string -> string) (w : World) (op : Op) : World :=
  match op with
  | OpX509Update env => (updateCertificates w env).1
  | OpJWTBundlesUpdate err => OnJWTBundlesUpdate path_Join w err
  | OpJWTSVIDUpdate jwtSVIDFilename env => (performJWTSVIDUpdate path_Join w jwtSVIDFilename env).1
  | OpChildExit => mkWorld (heap w) (checkProcessExit_leave (sidecar w))
  end.

Definition run (path_Join : string -> string -> string) (w : World) (ops : list Op) : World :=
  fold_left (apply path_Join) ops w.

(** A resource whose write status the health state tracks. *)
Inductive Resource : Type :=
| ResX509
| ResJWT (path : string).

#[global] Instance Resource_eq_dec : EqDecision Resource.
Proof. solve_decision. Defined.

Definition status (w : World) (r : Resource) : option string :=
  match r with
  | ResX509 =>
      match x509WriteStatusOf (sidecar w) with
      | None => None
      | Some p => deref (heap w) p
      end
  | ResJWT path => mapAt (heap w) (jwtWriteStatusOf (sidecar w)) !! path
  end.

(** The resource an operation assigns a status to, if any. *)
Definition assigns (path_Join : string -> string -> string) (w : World) (op : Op)
  : option Resource :=
  let cfg := config (sidecar w) in
  match op with
  | OpX509Update _ => Some ResX509
  | OpJWTBundlesUpdate _ => Some (ResJWT (path_Join (CertDir cfg) (JWTBundleFilename cfg)))
  | OpJWTSVIDUpdate jwtSVIDFilename env =>
      match fetchJWTSVIDs env with
      | inr _ => None
      | inl _ => Some (ResJWT (path_Join (CertDir cfg) jwtSVIDFilename))
      end
  | OpChildExit => None
  end.

(** The six transitions of a write status. *)
Definition transition (old new : string) : Prop :=
  (old = writeStatusUnwritten /\ new = writeStatusWritten)
  \/ (old = writeStatusUnwritten /\ new = writeStatusFailed)
  \/ (old = writeStatusWritten /\ new = writeStatusFailed)
  \/ (old = writeStatusFailed /\ new = writeStatusWritten)
  \/ (old = writeStatusWritten /\ new = writeStatusWritten)
  \/ (old = writeStatusFailed /\ new = writeStatusFailed).

(** The resources the probes look at. *)
Definition tracked (w : World) (r : Resource) : Prop :=
  match r with
  | ResX509 => x509Enabled (config (sidecar w)) = true
  | ResJWT _ => True
  end.

(** ** Invocations of the child-process path under the mutex

    [signalProcess] holds [s.mu] from its first statement to its return,
    and so does each half of [checkProcessExit]: concurrent invocations
    take effect one whole body after the other, in the order they get
    the mutex. *)
Inductive Action : Type :=
| ActSignalProcess (env : ProcEnv)
| ActChildExited.

Definition act (s : Sidecar) (a : Action) : Sidecar * list Event :=
  match a with
  | ActSignalProcess env => let '(s, _, ev) := signalProcess s env in (s, ev)
  | ActChildExited => (checkProcessExit_leave s, [])
  end.

Fixpoint schedule (s : Sidecar) (acts : list Action) : Sidecar * list Event :=
  match acts with
  | [] => (s, [])
  | a :: acts =>
      let '(s, ev) := act s a in
      let '(s', evs) := schedule s acts in
      (s', ev ++ evs)
  end.

(** The children started and the signals sent in a trace. *)
Definition spawned (evs : list Event) : list Process :=
  omap (fun ev => match ev with EvStart _ _ child => Some child | _ => None end) evs.

Definition signalled (evs : list Event) : list (option Process) :=
  omap (fun ev => match ev with EvSignal target _ => Some target | _ => None end) evs.

End Sidecar.

(* ===================================================================== *)
(** * Invariants of the health state                                      *)
(* ===================================================================== *)

Module Invariant.
Import Cfg Time Retry Refresh Sidecar.

(** The map reference of a sidecar made by [New] points into the heap. *)
Definition validMap (w : World) : Prop :=
  (jwtWriteStatusOf (sidecar w) < length (mapObjs (heap w)))%nat.

(** String variables are never assigned after their address is taken:
    what a pointer reads in [h] it reads in [h'] too. *)
Definition heapExt (h h' : Heap) : Prop :=
  forall p x, deref h p = Some x -> deref h' p = Some x.

(** ** The invariant of a sidecar made by [New] *)

Definition statusOK (st : string) : Prop :=
  st = writeStatusUnwritten \/ st = writeStatusWritten \/ st = writeStatusFailed.

Definition statusesSat (P : string -> Prop) (w : World) : Prop :=
  forall r st, status w r = Some st -> P st.

Definition validPtr (w : World) : Prop :=
  forall p, x509WriteStatusOf (sidecar w) = Some p -> is_Some (deref (heap w) p).

Record wf (cfg : Config) (w : World) : Prop := mkWf {
  wf_config : config (sidecar w) = cfg;
  wf_map : validMap w;
  wf_ptr : validPtr w;
  wf_enabled : x509Enabled cfg = true -> is_Some (x509WriteStatusOf (sidecar w));
  wf_status : statusesSat statusOK w
}.

(** What one operation does to the health state. *)
Record stepSpec (path_Join : string -> string -> string) (cfg : Config)
    (w : World) (op : Op) : Prop := mkStepSpec {
  step_wf : wf cfg (apply path_Join w op);
  step_heap : heapExt (heap w) (heap (apply path_Join w op));
  step_map : jwtWriteStatusOf (sidecar (apply path_Join w op)) = jwtWriteStatusOf (sidecar w);
  step_assigned : forall r, assigns path_Join w op = Some r ->
    status (apply path_Join w op) r = Some writeStatusWritten
    \/ status (apply path_Join w op) r = Some writeStatusFailed;
  step_frame : forall r, assigns path_Join w op <> Some r ->
    status (apply path_Join w op) r = status w r
}.

(** The guarded calls of a cycle over the steps that are enabled. *)
Definition cycle (result : Step -> option error) (steps : list Step)
  : list Step * option error :=
  fold_right (fun step rest => guarded true step result rest) ([], None) steps.

(** The ticker periods of a run of [updateJWTSVID], when it does not panic. *)
Definition periods (r : outcome (Loop * list Duration)) : option (list Duration) :=
  match r with
  | Done (_, ds) => Some ds
  | Panicked _ => None
  end.

End Invariant.

(* ===================================================================== *)
(** * Concrete sidecars                                                   *)
(* ===================================================================== *)

Module Scenario.
Import Cfg Time Retry Refresh Sidecar.

(** [path.Join] on a clean directory and a clean file name. *)
Definition join (dir file : string) : string := dir +:+ "/" +:+ file.

Definition emptyHeap : Heap := mkHeap [] [].

(** X.509 only, with a child command. *)
Definition cfgX509 : Config :=
  mkConfig "/usr/sbin/nginx" "-s reload" "" "/certs" "SIGHUP"
    "svid.pem" "svid_key.pem" "svid_bundle.pem" [] "" 0 "" false.

(** A JWT bundle and one JWT SVID, no X.509. *)
Definition cfgJWT : Config :=
  mkConfig "" "" "" "/certs" "SIGHUP" "" "" ""
    [mkJWTConfig "backend" [] "jwt_svid.token"] "jwt_bundle.json" 0 "" false.

(** X.509, a JWT bundle and one JWT SVID. *)
Definition cfgAll : Config :=
  mkConfig "" "" "" "/certs" "SIGHUP"
    "svid.pem" "svid_key.pem" "svid_bundle.pem"
    [mkJWTConfig "backend" [] "jwt_svid.token"] "jwt_bundle.json" 0 "" false.

Definition diskFull : error := errorString "no space left on device".
Definition unavailable : error := errorString "rpc error: code = Unavailable".

Definition procOK (child : Process) : ProcEnv := mkProcEnv (inl child) None.
Definition procFails : ProcEnv :=
  mkProcEnv (inr (errorString "executable file not found in $PATH")) None.

Definition x509OK : X509Env := mkX509Env None (procOK 4242) None None.
Definition x509WriteFails : X509Env := mkX509Env (Some diskFull) (procOK 4242) None None.

Definition svid (expiry : Time) : SVID :=
  mkSVID "spiffe://example.org/workload" expiry "header.claims.signature".

(** The issuer answers with one token that expires five minutes after
    the clock reading 0; every write succeeds. *)
Definition jwtOK : JWTEnv :=
  mkJWTEnv (inl [svid (300 * Second)]) (fun _ => None) (fun _ => None) 0.

(** The issuer cannot be reached. *)
Definition jwtFetchFails : JWTEnv :=
  mkJWTEnv (inr unavailable) (fun _ => None) (fun _ => None) 0.


(** The issuer answers with no token at all, and the writer refuses the
    empty list. *)
Definition jwtNoneRefused : JWTEnv :=
  mkJWTEnv (inl []) (fun _ => None)
    (fun jwtSVIDs => match jwtSVIDs with
                     | [] => Some (errorString "no JWT SVIDs to write")
                     | _ => None
                     end) 0.

End Scenario.

(* ===================================================================== *)
(** * Package config: the file configuration and its checks               *)
(* ===================================================================== *)

Module FileConfig.

Record JWTConfig : Type := mkJWTConfig {
  JWTAudience : string;
  JWTExtraAudiences : list string;
  JWTSVIDFilename : string
}.

(** [config.Config]. [HealthCheck] and [UnusedKeyPositions] have types of
    other packages and are read by none of the functions below. *)
Record Config : Type := mkConfig {
  AddIntermediatesToBundle : bool;
  AgentAddress : string;
  Cmd : string;
  CmdArgs : string;
  PIDFilename : string;
  CertDir : string;
  CertFileMode : Z;
  KeyFileMode : Z;
  JWTBundleFileMode : Z;
  JWTSVIDFileMode : Z;
  IncludeFederatedDomains : bool;
  RenewSignal : string;
  DaemonMode : option bool;
  Hint : string;
  ParallelRequests : Z;
  SVIDFilename : string;
  SVIDKeyFilename : string;
  SVIDBundleFilename : string;
  JWTSVIDs : list JWTConfig;
  JWTBundleFilename : string
}.

Definition isEmpty (s : string) : bool := String.eqb s EmptyString.

(** The loop of [countEmpty]; [cnt++] is an [int] addition. *)
Definition countEmpty (configs : list string) : Z :=
  fold_left
    (fun cnt config => if String.eqb config EmptyString then int64_add cnt 1 else cnt)
    configs 0.

Definition errX509Names : error :=
  errorString
    "all or none of 'svid_file_name', 'svid_key_file_name', 'svid_bundle_file_name' must be specified".

Definition validateX509Config (c : Config) : bool * option error :=
  let x509EmptyCount :=
    countEmpty [SVIDFilename c; SVIDBundleFilename c; SVIDKeyFilename c] in
  if negb (x509EmptyCount =? 0) && negb (x509EmptyCount =? 3) then (false, Some errX509Names)
  else (x509EmptyCount =? 0, None).

Definition validateJWTConfig (c : Config) : bool * bool :=
  let jwtBundleEmptyCount := countEmpty [JWTBundleFilename c] in
  (jwtBundleEmptyCount =? 0, (0 <? length (JWTSVIDs c))%nat).

(** [NewSidecarConfig], on the fields [Cfg.Config] keeps; the loop
    appends one converted entry per JWT SVID of the file. The function
    sets no [ReloadExternalProcess]. *)
Definition NewSidecarConfig (config : Config) : Cfg.Config :=
  let sidecarConfig :=
    Cfg.mkConfig (Cmd config) (CmdArgs config) (PIDFilename config) (CertDir config)
      (RenewSignal config) (SVIDFilename config) (SVIDKeyFilename config)
      (SVIDBundleFilename config) [] (JWTBundleFilename config)
      (ParallelRequests config) (Hint config) false in
  fold_left
    (fun sidecarConfig jwtSVID =>
       Cfg.mkConfig (Cfg.Cmd sidecarConfig) (Cfg.CmdArgs sidecarConfig)
         (Cfg.PIDFilename sidecarConfig) (Cfg.CertDir sidecarConfig)
         (Cfg.RenewSignal sidecarConfig) (Cfg.SVIDFilename sidecarConfig)
         (Cfg.SVIDKeyFilename sidecarConfig) (Cfg.SVIDBundleFilename sidecarConfig)
         (Cfg.JWTSVIDs sidecarConfig
          ++ [Cfg.mkJWTConfig (JWTAudience jwtSVID) (JWTExtraAudiences jwtSVID)
                (JWTSVIDFilename jwtSVID)])
         (Cfg.JWTBundleFilename sidecarConfig) (Cfg.ParallelRequests sidecarConfig)
         (Cfg.Hint sidecarConfig) (Cfg.ReloadExternalProcess sidecarConfig))
    (JWTSVIDs config) sidecarConfig.

(** [strings.Join(elems, sep)] *)
Fixpoint Join (elems : list string) (sep : string) : string :=
  match elems with
  | [] => EmptyString
  | [elem] => elem
  | elem :: rest => elem +:+ sep +:+ Join rest sep
  end.

(** [slices.Sort] on strings: ascending in the byte-wise order of Go's
    string comparison. The order is total, so the result is the one
    sorted arrangement whatever the algorithm. *)
Definition Sort (keys : list string) : list string := merge_sort String.le keys.

(** [mapKeysToString], given the keys in the order the [range] over the
    map yields them. *)
Definition mapKeysToString_from (keys : list string) : string := Join (Sort keys) ",".

Definition mapKeysToString {V : Type} (myMap : gmap string V) : string :=
  mapKeysToString_from (map_to_list myMap).*1.

End FileConfig.

(* ===================================================================== *)
(** * One-shot mode, the poll workers and the reaper goroutines           *)
(* ===================================================================== *)

Module Modes.
Import Cfg Sidecar.

(** [Run], given what [setupClients] returns, what
    [util.RunTasksInParallel] returns for a number of requests, and
    what each step of a cycle returns. *)
Definition Run (cfg : Config) (setupClients_err : option error)
    (RunTasksInParallel : Z -> option error) (result : Step -> option error)
  : option error :=
  match setupClients_err with
  | Some err => Some err
  | None =>
      if 0 <? ParallelRequests cfg then RunTasksInParallel (ParallelRequests cfg)
      else (fetchAllCredentials cfg result).2
  end.

(** One worker of [runParallelDaemon]. Each element of [rounds] is one
    iteration of its loop: what the cycle returned, and whether
    [ctx.Done()] was closed when the worker looked afterwards. The
    result is the number of cycles started and whether the worker has
    returned. *)
Fixpoint worker (rounds : list (option error * bool)) : nat * bool :=
  match rounds with
  | [] => (1%nat, false)
  | (_, true) :: _ => (1%nat, true)
  | (_, false) :: rounds =>
      let '(cycles, returned) := worker rounds in (S cycles, returned)
  end.

(** A goroutine started by [go s.checkProcessExit()]. [child] is the
    process whose start launched it; [proc] is the handle it read and
    waits on. *)
Inductive reaper : Type :=
| Started (child : Process)
| Waiting (child : Process) (proc : option Process)
| Finished.

(** The sidecar and the reaper goroutines started so far. *)
Record Sys : Type := mkSys {
  sys_sidecar : Sidecar.Sidecar;
  sys_reapers : list reaper
}.

(** What [proc.Wait()] hands back: the state of the exited process, or
    nil together with an error. *)
Definition ProcessState : Type := Z.

Definition nilDereference : string := "nil pointer dereference".

(** What a goroutine does while it holds the mutex: an invocation of
    [signalProcess]; the first critical section of reaper [i]; and, once
    its [proc.Wait()] has returned [state], the rest of reaper [i]: the
    [cmdExit] hook on [*state], then its second critical section. *)
Inductive GAction : Type :=
| GSignalProcess (env : ProcEnv)
| GReaperEnter (i : nat)
| GReaperLeave (i : nat) (state : option ProcessState).

Definition launched (evs : list Event) : list reaper :=
  match spawned evs with
  | child :: _ => [Started child]
  | [] => []
  end.

Definition gstep (sys : Sys) (a : GAction) : outcome Sys :=
  match a with
  | GSignalProcess env =>
      let '(s, _, evs) := signalProcess (sys_sidecar sys) env in
      Done (mkSys s (sys_reapers sys ++ launched evs))
  | GReaperEnter i =>
      match sys_reapers sys !! i with
      | Some (Started child) =>
          bind (checkProcessExit_enter (sys_sidecar sys)) (fun proc =>
          Done (mkSys (sys_sidecar sys) (<[i := Waiting child proc]> (sys_reapers sys))))
      | _ => Done sys
      end
  | GReaperLeave i state =>
      match sys_reapers sys !! i with
      | Some (Waiting _ _) =>
          match state with
          | None => Panicked nilDereference
          | Some _ =>
              Done (mkSys (checkProcessExit_leave (sys_sidecar sys))
                      (<[i := Finished]> (sys_reapers sys)))
          end
      | _ => Done sys
      end
  end.

Fixpoint grun (sys : Sys) (acts : list GAction) : outcome Sys :=
  match acts with
  | [] => Done sys
  | a :: acts => bind (gstep sys a) (fun sys => grun sys acts)
  end.

(** What holds of the reapers at every moment: a reaper that has not
    finished belongs to the child the sidecar marks running, waits on
    that child's handle if it waits, and is the only such reaper. *)
Definition reaperOK (s : Sidecar.Sidecar) (r : reaper) : Prop :=
  match r with
  | Started child => processRunning s = true /\ process s = Some child
  | Waiting child proc =>
      processRunning s = true /\ process s = Some child /\ proc = Some child
  | Finished => True
  end.

Definition sysOK (sys : Sys) : Prop :=
  (forall i r, sys_reapers sys !! i = Some r -> reaperOK (sys_sidecar sys) r)
  /\ (forall i j ri rj, sys_reapers sys !! i = Some ri -> sys_reapers sys !! j = Some rj ->
        ri <> Finished -> rj <> Finished -> i = j).

(** A step keeps the invariant, or panics on the nil state of a failed
    [Wait]. *)
Definition stepOK (a : GAction) (r : outcome Sys) : Prop :=
  match r with
  | Done sys' => sysOK sys'
  | Panicked msg => msg = nilDereference /\ exists i, a = GReaperLeave i None
  end.

(** The watch task that keeps fresh what a step of a cycle fetches. *)
Definition watcherOf (step : Step) : Task :=
  match step with
  | fetchAndWriteX509Context => watchX509Context
  | fetchAndWriteJWTBundle => watchJWTBundles
  | fetchAndWriteJWTSVIDs => watchJWTSVIDs
  end.

(** The iterations of a worker that found the context open. *)
Fixpoint openRounds (rounds : list (option error * bool)) : nat :=
  match rounds with
  | (_, false) :: rounds => S (openRounds rounds)
  | _ => 0%nat
  end.

(** The resources a configuration asks the sidecar to keep on disk. *)
Definition configured (path_Join : string -> string -> string) (cfg : Config)
    (r : Resource) : Prop :=
  match r with
  | ResX509 => x509Enabled cfg = true
  | ResJWT path =>
      (jwtBundleEnabled cfg = true /\ path = path_Join (CertDir cfg) (JWTBundleFilename cfg))
      \/ exists jwtConfig, jwtConfig ∈ JWTSVIDs cfg
           /\ path = path_Join (CertDir cfg) (JWTSVIDFilename jwtConfig)
  end.

(** An update that ends in an error: the fetch or a validation fails, or
    the disk writer does. *)
Definition updateFails (env : JWTEnv) : bool :=
  match fetchJWTSVIDs env with
  | inr _ => true
  | inl jwtSVIDs =>
      match WriteJWTSVID_err env jwtSVIDs with
      | Some _ => true
      | None => false
      end
  end.

(** What [updateJWTSVID] relies on when an update succeeds: the list
    written is not empty and its first token expires after the clock
    reading. *)
Definition firstTokenValid (env : JWTEnv) : Prop :=
  forall jwtSVIDs, fetchJWTSVIDs env = inl jwtSVIDs ->
    WriteJWTSVID_err env jwtSVIDs = None ->
    exists jwtSVID rest,
      jwtSVIDs = jwtSVID :: rest /\ Now env < Refresh.svid_Expiry jwtSVID.

(** The child process is consistent: a sidecar that marks a child
    running holds its handle. *)
Definition processOK (s : Sidecar.Sidecar) : Prop :=
  processRunning s = true -> is_Some (process s).

End Modes.

(* ===================================================================== *)
(** * Quoting an argument list                                            *)
(* ===================================================================== *)

Module Quoting.
Import Csv.

(** A field between double quotes, each quote inside it doubled. *)
Fixpoint escape (field : list ascii) : list ascii :=
  match field with
  | [] => []
  | c :: rest => if Ascii.eqb c quote then quote :: quote :: escape rest else c :: escape rest
  end.

Definition quoted (field : list ascii) : list ascii := quote :: escape field ++ [quote].

(** The quoted fields, one delimiter between two neighbours. *)
Fixpoint encode (comma : ascii) (fields : list (list ascii)) : list ascii :=
  match fields with
  | [] => []
  | [field] => quoted field
  | field :: rest => quoted field ++ comma :: encode comma rest
  end.

End Quoting.

(* ===================================================================== *)
(** * Arithmetic of durations                                             *)
(* ===================================================================== *)

Module DurationFacts.
Import Time.

Lemma wrap64_id (z : Z) : minInt64 <= z <= maxInt64 -> wrap64 z = z.
Proof.
  unfold wrap64, minInt64, maxInt64. intros Hz.
  rewrite Z.mod_small by lia. lia.
Qed.

Lemma Sub_range (t u : Time) : minDuration <= Sub t u <= maxDuration.
Proof.
  unfold Sub, minDuration, maxDuration, minInt64, maxInt64. cbv zeta.
  destruct (Z.ltb_spec (t - u) (- 2 ^ 63)); [lia|].
  destruct (Z.ltb_spec (2 ^ 63 - 1) (t - u)); lia.
Qed.

Lemma Sub_exact (t u : Time) :
  minDuration <= t - u <= maxDuration -> Sub t u = t - u.
Proof.
  unfold Sub, minDuration, maxDuration, minInt64, maxInt64. cbv zeta. intros H.
  destruct (Z.ltb_spec (t - u) (- 2 ^ 63)); [lia|].
  destruct (Z.ltb_spec (2 ^ 63 - 1) (t - u)); lia.
Qed.

Lemma Sub_pos (t u : Time) : u < t -> 0 < Sub t u.
Proof.
  unfold Sub, minDuration, maxDuration, minInt64, maxInt64. cbv zeta. intros H.
  destruct (Z.ltb_spec (t - u) (- 2 ^ 63)); [lia|].
  destruct (Z.ltb_spec (2 ^ 63 - 1) (t - u)); lia.
Qed.

(** Halving a duration stays inside [int64]. *)
Lemma quot2_range (d : Duration) :
  minDuration <= d <= maxDuration ->
  minDuration <= d ÷ 2 <= maxDuration /\ d ÷ 2 <= 2 ^ 62 /\ (0 < d -> 0 <= d ÷ 2).
Proof.
  unfold minDuration, maxDuration, minInt64, maxInt64. intros H.
  pose proof (Z.quot_rem d 2 ltac:(lia)) as Hq.
  pose proof (Z.rem_bound_abs d 2 ltac:(lia)) as Hr.
  repeat split; lia.
Qed.

End DurationFacts.

(* ===================================================================== *)
(** * The retry scheduler                                                 *)
(* ===================================================================== *)

Module RetryFacts.
Import Time Retry DurationFacts.


Lemma create_inRange : inRange createRetryIntervalFunc.
Proof. unfold inRange, createRetryIntervalFunc, initialBackoff, maxBackoff, Second. lia. Qed.

Lemma call_inRange (f : retryFunc) :
  inRange f -> call f = (f, doubled_clamped f).
Proof.
  unfold inRange, call, doubled_clamped, int64_mul, multiplier, initialBackoff, maxBackoff, Second.
  intros Hf. cbv zeta.
  rewrite wrap64_id by (unfold minInt64, maxInt64; lia).
  f_equal.
  destruct (Z.ltb_spec (60 * 1000000000) (f * 2)); lia.
Qed.

Lemma doubled_clamped_inRange (f : retryFunc) :
  inRange f -> inRange (doubled_clamped f) /\ f <= doubled_clamped f.
Proof.
  unfold inRange, doubled_clamped, initialBackoff, maxBackoff, Second. lia.
Qed.

Lemma doubled_clamped_test (d : Duration) :
  doubled_clamped d = if 60 * Second <? 2 * d then 60 * Second else 2 * d.
Proof.
  unfold doubled_clamped, maxBackoff.
  destruct (Z.ltb_spec (60 * Second) (2 * d)); lia.
Qed.

Lemma calls_length (n : nat) (f : retryFunc) : length (calls n f).1 = n.
Proof.
  revert f. induction n as [|n IH]; intros f; [reflexivity|].
  cbn [calls]. destruct (call f) as [d f'] eqn:Hc.
  specialize (IH f'). destruct (calls n f') as [ds f'']. simpl in *. lia.
Qed.

Lemma calls_head (n : nat) (f : retryFunc) (d : Duration) :
  head (calls n f).1 = Some d -> d = f.
Proof.
  destruct n as [|n]; [discriminate|].
  cbn [calls]. unfold call at 1. cbv zeta.
  destruct (calls n _) as [ds f'']. simpl. congruence.
Qed.

Lemma calls_closure_inRange (n : nat) (f : retryFunc) :
  inRange f -> inRange (calls n f).2.
Proof.
  revert f. induction n as [|n IH]; intros f Hf; [exact Hf|].
  cbn [calls]. rewrite (call_inRange f Hf).
  specialize (IH _ (proj1 (doubled_clamped_inRange f Hf))).
  destruct (calls n (doubled_clamped f)) as [ds f'']. exact IH.
Qed.

Lemma calls_lookup_inRange (n : nat) (f : retryFunc) (i : nat) (d : Duration) :
  inRange f -> (calls n f).1 !! i = Some d -> inRange d.
Proof.
  revert f i. induction n as [|n IH]; intros f i Hf; [discriminate|].
  cbn [calls]. rewrite (call_inRange f Hf).
  pose proof (IH (doubled_clamped f)) as IH'.
  destruct (calls n (doubled_clamped f)) as [ds f'']. simpl in *.
  destruct i as [|i]; simpl.
  - intros [= <-]. exact Hf.
  - intros Hi. eapply IH'; [|exact Hi]. apply doubled_clamped_inRange, Hf.
Qed.

Lemma calls_lookup_succ (n : nat) (f : retryFunc) (i : nat) (d d' : Duration) :
  inRange f ->
  (calls n f).1 !! i = Some d -> (calls n f).1 !! S i = Some d' ->
  d' = doubled_clamped d.
Proof.
  revert f i. induction n as [|n IH]; intros f i Hf; [discriminate|].
  cbn [calls]. rewrite (call_inRange f Hf).
  pose proof (IH (doubled_clamped f)) as IH'.
  pose proof (calls_head n (doubled_clamped f)) as Hh.
  destruct (calls n (doubled_clamped f)) as [ds f'']. simpl in *.
  destruct i as [|i]; simpl.
  - intros [= <-] Hd'. apply Hh. destruct ds; simpl in *; congruence.
  - intros Hi HSi. eapply IH'; eauto. apply doubled_clamped_inRange, Hf.
Qed.

End RetryFacts.

(* ===================================================================== *)
(** * The refresh scheduler                                               *)
(* ===================================================================== *)

Module RefreshFacts.
Import Time Refresh DurationFacts.

Lemma getRefreshInterval_exact (now : Time) (svid : SVID) :
  getRefreshInterval now svid = Until now (svid_Expiry svid) ÷ 2 + Second.
Proof.
  unfold getRefreshInterval, int64_add, int64_div, Until.
  pose proof (Sub_range (svid_Expiry svid) now) as Hr.
  destruct (quot2_range _ Hr) as (Hq & Hq' & _).
  rewrite (wrap64_id (_ ÷ 2)) by exact Hq.
  apply wrap64_id.
  unfold minDuration, maxDuration, minInt64, maxInt64, Second in *. lia.
Qed.

(** C4: for an SVID with expiry E read at time T, [getRefreshInterval]
    returns half of the remaining lifetime plus one second, with no
    [int64] wrap-around: the remaining lifetime is the duration
    [time.Until] gives, which is E - T whenever that difference is a
    [time.Duration], and the division is Go's, truncating toward zero.
    The value is strictly positive whenever E > T. *)
Theorem getRefreshInterval_spec (T : Time) (svid : SVID) :
  let E := svid_Expiry svid in
  getRefreshInterval T svid = Until T E ÷ 2 + 1 * Second
  /\ (minDuration <= E - T <= maxDuration ->
      getRefreshInterval T svid = (E - T) ÷ 2 + 1 * Second)
  /\ (T < E -> 0 < getRefreshInterval T svid).
Proof.
  cbv zeta. rewrite getRefreshInterval_exact. rewrite Z.mul_1_l.
  split; [reflexivity|]. split.
  - intros Hr. unfold Until. rewrite (Sub_exact _ _ Hr). reflexivity.
  - intros Hlt. unfold Until.
    pose proof (Sub_pos _ _ Hlt) as Hp.
    pose proof (Sub_range (svid_Expiry svid) T) as Hr.
    destruct (quot2_range _ Hr) as (_ & _ & Hq). specialize (Hq Hp).
    unfold Second. lia.
Qed.

(** A token that expires five minutes after the clock reading. *)
Lemma getRefreshInterval_witness :
  getRefreshInterval 1000 (mkSVID "spiffe://example.org/workload" (1000 + 300 * Second) "token")
  = 151 * Second
  /\ 0 < getRefreshInterval 1000 (mkSVID "spiffe://example.org/workload" (1000 + 300 * Second) "token").
Proof.
  pose proof (getRefreshInterval_spec 1000
                (mkSVID "spiffe://example.org/workload" (1000 + 300 * Second) "token")) as H.
  cbv zeta in H. destruct H as (_ & Hexact & Hpos). split.
  - rewrite Hexact; [reflexivity|]. vm_compute. split; discriminate.
  - apply Hpos. reflexivity.
Defined.

End RefreshFacts.

(* ===================================================================== *)
(** * The retry scheduler inside [updateJWTSVID]                          *)
(* ===================================================================== *)

Module RetryLoopFacts.
Import Cfg Time Retry Refresh Sidecar RetryFacts.

Lemma tick_success (path_Join : string -> string -> string) (l l' : Loop)
    (fn : string) (env : JWTEnv) (jwtSVIDs : list SVID) :
  (performJWTSVIDUpdate path_Join (world l) fn env).2 = inl jwtSVIDs ->
  updateJWTSVID_tick path_Join l fn env = Done l' ->
  retryInterval l' = createRetryIntervalFunc.
Proof.
  unfold updateJWTSVID_tick.
  destruct (performJWTSVIDUpdate path_Join (world l) fn env) as [w res]. simpl.
  intros ->. destruct jwtSVIDs as [|jwtSVID rest]; simpl; [discriminate|].
  destruct (ticker_Reset _); simpl; [|discriminate].
  intros [= <-]. reflexivity.
Qed.

Lemma tick_failure (path_Join : string -> string -> string) (l l' : Loop)
    (fn : string) (env : JWTEnv) (err : error) :
  (performJWTSVIDUpdate path_Join (world l) fn env).2 = inr err ->
  updateJWTSVID_tick path_Join l fn env = Done l' ->
  (ticker l', retryInterval l') = call (retryInterval l).
Proof.
  unfold updateJWTSVID_tick.
  destruct (performJWTSVIDUpdate path_Join (world l) fn env) as [w res]. cbn [snd].
  intros ->. destruct (call (retryInterval l)) as [d f].
  unfold ticker_Reset. destruct (d <=? 0); cbn [bind]; [discriminate|].
  intros [= <-]. reflexivity.
Qed.

(** C3: N consecutive calls of one generator made by
    [createRetryIntervalFunc] return N intervals that start at 1s, never
    decrease, each next one being twice the one before unless that
    exceeds 60s, in which case it is 60s, and none exceeds 60s; a fresh
    generator returns 1s; [updateJWTSVID] replaces its generator by a
    fresh one on every tick whose update succeeds and only advances it
    on a tick whose update fails. *)
Theorem retry_intervals_spec (N : nat) :
  let ds := (calls N createRetryIntervalFunc).1 in
  length ds = N
  /\ (forall d, head ds = Some d -> d = 1 * Second)
  /\ (forall i d d', ds !! i = Some d -> ds !! S i = Some d' ->
        d <= d' /\ d' = if 60 * Second <? 2 * d then 60 * Second else 2 * d)
  /\ (forall i d, ds !! i = Some d -> d <= 60 * Second)
  /\ (call createRetryIntervalFunc).1 = 1 * Second
  /\ (forall path_Join l fn env l',
        updateJWTSVID_tick path_Join l fn env = Done l' ->
        match (performJWTSVIDUpdate path_Join (world l) fn env).2 with
        | inl _ => retryInterval l' = createRetryIntervalFunc
        | inr _ => (ticker l', retryInterval l') = call (retryInterval l)
        end).
Proof.
  cbv zeta. split; [apply calls_length|].
  split; [intros d Hd; apply calls_head in Hd; exact Hd|].
  split.
  { intros i d d' Hi HSi.
    pose proof (calls_lookup_inRange _ _ _ _ create_inRange Hi) as Hr.
    pose proof (calls_lookup_succ _ _ _ _ _ create_inRange Hi HSi) as ->.
    split; [apply doubled_clamped_inRange, Hr|apply doubled_clamped_test]. }
  split.
  { intros i d Hi. apply (calls_lookup_inRange _ _ _ _ create_inRange Hi). }
  split; [reflexivity|].
  intros path_Join l fn env l' Htick.
  destruct (performJWTSVIDUpdate path_Join (world l) fn env).2 eqn:Hres.
  - eapply tick_success; eauto.
  - eapply tick_failure; eauto.
Qed.

(** Eight calls: the doubling, the clamp at the seventh, the plateau. *)
Lemma retry_intervals_witness :
  (calls 8 createRetryIntervalFunc).1 !! 6%nat = Some (60 * Second)
  /\ 32 * Second <= 60 * Second.
Proof.
  split; [reflexivity|].
  exact (proj1 (proj1 (proj2 (proj2 (retry_intervals_spec 8)))
                  5%nat (32 * Second) (60 * Second) eq_refl eq_refl)).
Defined.

End RetryLoopFacts.

(* ===================================================================== *)
(** * The health state: heap and status lemmas                            *)
(* ===================================================================== *)

Module HealthFacts.
Import Cfg Time Retry Refresh Sidecar Invariant.

Lemma deref_newString_new (h : Heap) (v : string) :
  deref (newString h v).1 (newString h v).2 = Some v.
Proof. unfold deref, newString. simpl. by apply list_lookup_middle. Qed.

Lemma deref_newString_old (h : Heap) (v : string) (p : loc) (x : string) :
  deref h p = Some x -> deref (newString h v).1 p = Some x.
Proof.
  unfold deref, newString. simpl. intros Hp.
  rewrite lookup_app_l; [done|]. by eapply lookup_lt_Some.
Qed.

Lemma mapAt_newString (h : Heap) (v : string) (m : loc) :
  mapAt (newString h v).1 m = mapAt h m.
Proof. reflexivity. Qed.

Lemma deref_mapAssign (h : Heap) (m : loc) (k v : string) (p : loc) :
  deref (mapAssign h m k v) p = deref h p.
Proof. reflexivity. Qed.

Lemma mapAt_mapAssign (h : Heap) (m : loc) (k v : string) :
  (m < length (mapObjs h))%nat ->
  mapAt (mapAssign h m k v) m = <[k:=v]> (mapAt h m).
Proof.
  intros Hm. unfold mapAt, mapAssign. simpl.
  rewrite list_lookup_alter_eq.
  destruct (mapObjs h !! m) eqn:Hx; [reflexivity|].
  apply lookup_ge_None in Hx. lia.
Qed.

Lemma mapAt_mapAssign_ne (h : Heap) (m m' : loc) (k v : string) :
  m <> m' -> mapAt (mapAssign h m k v) m' = mapAt h m'.
Proof.
  intros Hne. unfold mapAt, mapAssign. simpl.
  by rewrite list_lookup_alter_ne.
Qed.

Lemma length_mapObjs_mapAssign (h : Heap) (m : loc) (k v : string) :
  length (mapObjs (mapAssign h m k v)) = length (mapObjs h).
Proof. unfold mapAssign. simpl. apply length_alter. Qed.


Lemma heapExt_refl (h : Heap) : heapExt h h.
Proof. intros p x Hp. exact Hp. Qed.

Lemma heapExt_trans (h1 h2 h3 : Heap) : heapExt h1 h2 -> heapExt h2 h3 -> heapExt h1 h3.
Proof. intros H12 H23 p x Hp. apply H23, H12, Hp. Qed.

Section Setters.
Variable w : World.

Lemma setX509_sidecar (v : string) :
  config (sidecar (setX509WriteStatus w v)) = config (sidecar w)
  /\ processRunning (sidecar (setX509WriteStatus w v)) = processRunning (sidecar w)
  /\ process (sidecar (setX509WriteStatus w v)) = process (sidecar w)
  /\ jwtWriteStatusOf (sidecar (setX509WriteStatus w v)) = jwtWriteStatusOf (sidecar w)
  /\ x509WriteStatusOf (sidecar (setX509WriteStatus w v)) = Some (length (stringVars (heap w)))
  /\ mapObjs (heap (setX509WriteStatus w v)) = mapObjs (heap w).
Proof. repeat split. Qed.

Lemma setX509_status_x509 (v : string) :
  status (setX509WriteStatus w v) ResX509 = Some v.
Proof.
  unfold status, setX509WriteStatus. simpl.
  apply (deref_newString_new (heap w) v).
Qed.

Lemma setX509_status_jwt (v k : string) :
  status (setX509WriteStatus w v) (ResJWT k) = status w (ResJWT k).
Proof. reflexivity. Qed.

Lemma setX509_heapExt (v : string) : heapExt (heap w) (heap (setX509WriteStatus w v)).
Proof. intros p x Hp. apply (deref_newString_old (heap w) v p x Hp). Qed.

Lemma setX509_validMap (v : string) : validMap w -> validMap (setX509WriteStatus w v).
Proof. unfold validMap. intros H. exact H. Qed.

Lemma setJWT_sidecar (k v : string) : sidecar (setJWTWriteStatus w k v) = sidecar w.
Proof. reflexivity. Qed.

Lemma setJWT_stringVars (k v : string) :
  stringVars (heap (setJWTWriteStatus w k v)) = stringVars (heap w).
Proof. reflexivity. Qed.

Lemma setJWT_status_x509 (k v : string) :
  status (setJWTWriteStatus w k v) ResX509 = status w ResX509.
Proof. reflexivity. Qed.

Lemma setJWT_status_eq (k v : string) :
  validMap w -> status (setJWTWriteStatus w k v) (ResJWT k) = Some v.
Proof.
  intros Hm. unfold status, setJWTWriteStatus. simpl.
  rewrite mapAt_mapAssign by exact Hm. apply lookup_insert_eq.
Qed.

Lemma setJWT_status_ne (k v k' : string) :
  k <> k' -> status (setJWTWriteStatus w k v) (ResJWT k') = status w (ResJWT k').
Proof.
  intros Hne. unfold status, setJWTWriteStatus. simpl.
  destruct (decide (jwtWriteStatusOf (sidecar w) < length (mapObjs (heap w)))%nat) as [Hm|Hm].
  - rewrite mapAt_mapAssign by exact Hm. by apply lookup_insert_ne.
  - unfold mapAt, mapAssign. simpl. rewrite list_lookup_alter_eq.
    rewrite (lookup_ge_None_2 (mapObjs (heap w))) by lia. reflexivity.
Qed.

Lemma setJWT_heapExt (k v : string) : heapExt (heap w) (heap (setJWTWriteStatus w k v)).
Proof. intros p x Hp. exact Hp. Qed.

Lemma setJWT_validMap (k v : string) : validMap w -> validMap (setJWTWriteStatus w k v).
Proof.
  unfold validMap, setJWTWriteStatus, mapAssign. simpl.
  rewrite length_alter. auto.
Qed.

End Setters.

Lemma signalProcess_health (s : Sidecar.Sidecar) (env : ProcEnv) :
  config (signalProcess s env).1.1 = config s
  /\ health (signalProcess s env).1.1 = health s.
Proof.
  unfold signalProcess.
  destruct (negb (processRunning s)).
  - destruct (Args.getCmdArgs _); [destruct (cmd_Start env)|]; split; reflexivity.
  - destruct (SignalProcess_err env); split; reflexivity.
Qed.


Lemma status_ext (w w' : World) (r : Resource) :
  heap w = heap w' -> health (sidecar w) = health (sidecar w') ->
  status w r = status w' r.
Proof.
  intros Hh Hs. unfold status, x509WriteStatusOf, jwtWriteStatusOf.
  rewrite Hh, Hs. reflexivity.
Qed.

Lemma setX509_validPtr (w : World) (v : string) : validPtr (setX509WriteStatus w v).
Proof.
  intros p Hp. pose proof (setX509_status_x509 w v) as Hs.
  unfold status in Hs. rewrite Hp in Hs. rewrite Hs. eauto.
Qed.

Lemma setX509_statusesSat (P : string -> Prop) (w : World) (v : string) :
  P v -> statusesSat P w -> statusesSat P (setX509WriteStatus w v).
Proof.
  intros Hv Hw [|k] st.
  - rewrite setX509_status_x509. intros [= <-]. exact Hv.
  - rewrite setX509_status_jwt. apply Hw.
Qed.

Lemma setJWT_statusesSat (P : string -> Prop) (w : World) (k v : string) :
  P v -> validMap w -> statusesSat P w -> statusesSat P (setJWTWriteStatus w k v).
Proof.
  intros Hv Hm Hw [|k'] st.
  - rewrite setJWT_status_x509. apply Hw.
  - destruct (decide (k = k')) as [<-|Hne].
    + rewrite setJWT_status_eq by exact Hm. intros [= <-]. exact Hv.
    + rewrite setJWT_status_ne by exact Hne. apply Hw.
Qed.

Lemma setJWT_validPtr (w : World) (k v : string) :
  validPtr w -> validPtr (setJWTWriteStatus w k v).
Proof. intros Hw p Hp. apply (Hw p Hp). Qed.

Lemma wf_setX509 (cfg : Config) (w : World) (v : string) :
  statusOK v -> wf cfg w -> wf cfg (setX509WriteStatus w v).
Proof.
  intros Hv [Hc Hm Hp He Hs]. split.
  - exact Hc.
  - apply setX509_validMap, Hm.
  - apply setX509_validPtr.
  - intros _. eexists. apply setX509_sidecar.
  - apply setX509_statusesSat; assumption.
Qed.

Lemma wf_setJWT (cfg : Config) (w : World) (k v : string) :
  statusOK v -> wf cfg w -> wf cfg (setJWTWriteStatus w k v).
Proof.
  intros Hv [Hc Hm Hp He Hs]. split.
  - exact Hc.
  - apply setJWT_validMap, Hm.
  - apply setJWT_validPtr, Hp.
  - exact He.
  - apply setJWT_statusesSat; assumption.
Qed.

Lemma wf_ext (cfg : Config) (w w' : World) :
  heap w = heap w' -> config (sidecar w) = config (sidecar w') ->
  health (sidecar w) = health (sidecar w') -> wf cfg w -> wf cfg w'.
Proof.
  intros Hh Hc Hs [Hcfg Hm Hp He Hst].
  assert (Hx : x509WriteStatusOf (sidecar w') = x509WriteStatusOf (sidecar w))
    by (unfold x509WriteStatusOf; rewrite Hs; reflexivity).
  split.
  - congruence.
  - unfold validMap, jwtWriteStatusOf in *. rewrite <- Hh, <- Hs. exact Hm.
  - intros p. rewrite Hx, <- Hh. apply Hp.
  - rewrite Hx. exact He.
  - intros r st. rewrite <- (status_ext w w' r Hh Hs). apply Hst.
Qed.

(** ** [updateCertificates] writes one X.509 status and leaves the rest
    of the health state alone *)
Lemma updateCertificates_world (w : World) (env : X509Env) :
  let v := match WriteX509Context_err env with
           | Some _ => writeStatusFailed
           | None => writeStatusWritten
           end in
  heap (updateCertificates w env).1 = heap (setX509WriteStatus w v)
  /\ config (sidecar (updateCertificates w env).1) = config (sidecar w)
  /\ health (sidecar (updateCertificates w env).1) = health (sidecar (setX509WriteStatus w v)).
Proof.
  cbv zeta. unfold updateCertificates.
  destruct (WriteX509Context_err env); [repeat split|].
  set (w1 := setX509WriteStatus w writeStatusWritten).
  destruct (nonempty (Cmd (config (sidecar w1)))).
  - pose proof (signalProcess_health (sidecar w1) (x509_proc env)) as [Hc Hh].
    destruct (signalProcess (sidecar w1) (x509_proc env)) as [[s e] ev].
    simpl in *. repeat split; assumption.
  - repeat split.
Qed.

(** ** [setupHealth] and [New] *)

Section Setup.
Variable path_Join : string -> string -> string.
Variable P : string -> Prop.

Lemma fold_setJWT {A : Type} (key : A -> string) (v : string) (keys : list A) (w : World) :
  let w' := fold_left (fun w a => setJWTWriteStatus w (key a) v) keys w in
  sidecar w' = sidecar w
  /\ (validMap w -> validMap w')
  /\ (validPtr w -> validPtr w')
  /\ (P v -> validMap w -> statusesSat P w -> statusesSat P w').
Proof.
  cbv zeta. revert w. induction keys as [|a keys IH]; intros w; simpl.
  - tauto.
  - destruct (IH (setJWTWriteStatus w (key a) v)) as (Hs & Hm & Hp & Hst).
    rewrite Hs. split; [reflexivity|].
    split; [intros H; apply Hm, setJWT_validMap, H|].
    split; [intros H; apply Hp, setJWT_validPtr, H|].
    intros Hv Hmw Hw. apply Hst; [exact Hv|apply setJWT_validMap, Hmw|].
    apply setJWT_statusesSat; assumption.
Qed.

Lemma setupHealth_inv (w : World) :
  P writeStatusUnwritten -> validMap w -> validPtr w -> statusesSat P w ->
  let w' := setupHealth path_Join w in
  config (sidecar w') = config (sidecar w)
  /\ validMap w' /\ validPtr w' /\ statusesSat P w'
  /\ (x509Enabled (config (sidecar w)) = true -> is_Some (x509WriteStatusOf (sidecar w'))).
Proof.
  intros HP Hm Hp Hst. cbv zeta. unfold setupHealth.
  set (cfg := config (sidecar w)).
  set (w1 := if x509Enabled cfg then setX509WriteStatus w writeStatusUnwritten else w).
  assert (H1 : config (sidecar w1) = cfg /\ validMap w1 /\ validPtr w1 /\ statusesSat P w1
               /\ (x509Enabled cfg = true -> is_Some (x509WriteStatusOf (sidecar w1)))).
  { subst w1. destruct (x509Enabled cfg).
    - split; [reflexivity|]. split; [apply setX509_validMap, Hm|].
      split; [apply setX509_validPtr|]. split; [apply setX509_statusesSat; assumption|].
      intros _. eexists. apply setX509_sidecar.
    - repeat split; try assumption. discriminate. }
  clearbody w1. destruct H1 as (Hc1 & Hm1 & Hp1 & Hst1 & He1).
  set (w2 := if jwtBundleEnabled cfg
             then setJWTWriteStatus w1 (path_Join (CertDir cfg) (JWTBundleFilename cfg))
                    writeStatusUnwritten
             else w1).
  assert (H2 : sidecar w2 = sidecar w1 /\ validMap w2 /\ validPtr w2 /\ statusesSat P w2).
  { subst w2. destruct (jwtBundleEnabled cfg).
    - split; [reflexivity|]. split; [apply setJWT_validMap, Hm1|].
      split; [apply setJWT_validPtr, Hp1|]. apply setJWT_statusesSat; assumption.
    - repeat split; assumption. }
  clearbody w2. destruct H2 as (Hs2 & Hm2 & Hp2 & Hst2).
  destruct (fold_setJWT (fun jwtConfig => path_Join (CertDir cfg) (JWTSVIDFilename jwtConfig))
              writeStatusUnwritten (JWTSVIDs cfg) w2) as (Hs3 & Hm3 & Hp3 & Hst3).
  rewrite Hs3, Hs2. repeat split; auto.
Qed.

Lemma New_inv (h : Heap) (cfg : Config) :
  P writeStatusUnwritten ->
  let w := New path_Join h cfg in
  config (sidecar w) = cfg
  /\ validMap w /\ validPtr w /\ statusesSat P w
  /\ (x509Enabled cfg = true -> is_Some (x509WriteStatusOf (sidecar w))).
Proof.
  intros HP. cbv zeta. unfold New, makeMap.
  apply (setupHealth_inv
           (mkWorld (mkHeap (stringVars h) (mapObjs h ++ [∅]))
              (mkSidecar cfg false None
                 (mkHealth (mkFileWriteStatuses None (length (mapObjs h))))))).
  - exact HP.
  - unfold validMap, jwtWriteStatusOf. simpl. rewrite length_app. simpl. lia.
  - intros p. discriminate.
  - intros [|k] st; simpl; [discriminate|].
    unfold mapAt, jwtWriteStatusOf. simpl. rewrite list_lookup_middle by reflexivity. simpl.
    rewrite lookup_empty. discriminate.
Qed.

End Setup.

Lemma New_wf (path_Join : string -> string -> string) (h : Heap) (cfg : Config) :
  wf cfg (New path_Join h cfg).
Proof.
  destruct (New_inv path_Join statusOK h cfg) as (Hc & Hm & Hp & Hst & He).
  { left. reflexivity. }
  split; assumption.
Qed.

Lemma New_unwritten (path_Join : string -> string -> string) (h : Heap) (cfg : Config) :
  statusesSat (fun st => st = writeStatusUnwritten) (New path_Join h cfg).
Proof.
  destruct (New_inv path_Join (fun st => st = writeStatusUnwritten) h cfg)
    as (Hc & Hm & Hp & Hst & He); [reflexivity|exact Hst].
Qed.

End HealthFacts.

(* ===================================================================== *)
(** * Write-status transitions                                            *)
(* ===================================================================== *)

Module TransitionFacts.
Import Cfg Time Retry Refresh Sidecar Invariant HealthFacts.

Section Steps.
Variable path_Join : string -> string -> string.
Variable cfg : Config.

Local Abbreviation stepSpec := (Invariant.stepSpec path_Join cfg).


Lemma setJWT_stepSpec (w : World) (op : Op) (k v : string) :
  wf cfg w ->
  v = writeStatusWritten \/ v = writeStatusFailed ->
  apply path_Join w op = setJWTWriteStatus w k v ->
  assigns path_Join w op = Some (ResJWT k) ->
  stepSpec w op.
Proof.
  intros Hw Hv Happ Hass. split; rewrite ?Happ, ?Hass.
  - apply wf_setJWT; [destruct Hv; subst v; unfold statusOK; tauto|exact Hw].
  - apply setJWT_heapExt.
  - reflexivity.
  - intros r [= <-]. rewrite setJWT_status_eq by apply Hw.
    destruct Hv; subst v; tauto.
  - intros [|k'] Hne.
    + apply setJWT_status_x509.
    + apply setJWT_status_ne. congruence.
Qed.

Lemma same_stepSpec (w : World) (op : Op) :
  wf cfg w ->
  heap (apply path_Join w op) = heap w ->
  config (sidecar (apply path_Join w op)) = config (sidecar w) ->
  health (sidecar (apply path_Join w op)) = health (sidecar w) ->
  assigns path_Join w op = None ->
  stepSpec w op.
Proof.
  intros Hw Hh Hc Hs Hass. split; rewrite ?Hass.
  - eapply wf_ext; [| | |exact Hw]; symmetry; assumption.
  - rewrite Hh. apply heapExt_refl.
  - unfold jwtWriteStatusOf. rewrite Hs. reflexivity.
  - discriminate.
  - intros r _. apply status_ext; assumption.
Qed.

Lemma apply_stepSpec (w : World) (op : Op) : wf cfg w -> stepSpec w op.
Proof.
  intros Hw. destruct op as [env|err|fn env|].
  - (* updateCertificates *)
    destruct (updateCertificates_world w env) as (Hh & Hc & Hs).
    set (v := match WriteX509Context_err env with
              | Some _ => writeStatusFailed
              | None => writeStatusWritten
              end) in *.
    assert (Hv : statusOK v /\ (v = writeStatusWritten \/ v = writeStatusFailed)).
    { subst v. unfold statusOK. destruct (WriteX509Context_err env); tauto. }
    assert (Hst : forall r, status (apply path_Join w (OpX509Update env)) r
                            = status (setX509WriteStatus w v) r).
    { intros r. apply status_ext; assumption. }
    split.
    + apply (wf_ext cfg (setX509WriteStatus w v)).
      * symmetry. exact Hh.
      * transitivity (config (sidecar w)); [reflexivity|symmetry; exact Hc].
      * symmetry. exact Hs.
      * apply wf_setX509; [apply Hv|exact Hw].
    + simpl. rewrite Hh. apply setX509_heapExt.
    + simpl. unfold jwtWriteStatusOf. rewrite Hs. reflexivity.
    + intros r [= <-]. rewrite Hst, setX509_status_x509.
      destruct Hv as [_ [-> | ->]]; tauto.
    + intros [|k] Hne; [exfalso; apply Hne; reflexivity|].
      rewrite Hst. apply setX509_status_jwt.
  - (* OnJWTBundlesUpdate *)
    destruct err as [e|].
    + eapply setJWT_stepSpec; [exact Hw|right; reflexivity|reflexivity|reflexivity].
    + eapply setJWT_stepSpec; [exact Hw|left; reflexivity|reflexivity|reflexivity].
  - (* performJWTSVIDUpdate *)
    destruct (fetchJWTSVIDs env) as [jwtSVIDs|e] eqn:Hf.
    + destruct (WriteJWTSVID_err env jwtSVIDs) as [e|] eqn:Hwr.
      * eapply setJWT_stepSpec; [exact Hw|right; reflexivity| |].
        -- simpl. unfold performJWTSVIDUpdate. rewrite Hf, Hwr. reflexivity.
        -- simpl. rewrite Hf. reflexivity.
      * eapply setJWT_stepSpec; [exact Hw|left; reflexivity| |].
        -- simpl. unfold performJWTSVIDUpdate. rewrite Hf, Hwr. reflexivity.
        -- simpl. rewrite Hf. reflexivity.
    + apply same_stepSpec; simpl; unfold performJWTSVIDUpdate; rewrite ?Hf; auto.
  - (* checkProcessExit *)
    apply same_stepSpec; auto.
Qed.

Lemma run_snoc (w : World) (ops : list Op) (op : Op) :
  run path_Join w (ops ++ [op]) = apply path_Join (run path_Join w ops) op.
Proof. unfold run. rewrite fold_left_app. reflexivity. Qed.

Lemma run_app (w : World) (ops ops' : list Op) :
  run path_Join w (ops ++ ops') = run path_Join (run path_Join w ops) ops'.
Proof. unfold run. apply fold_left_app. Qed.

Lemma run_wf (w : World) (ops : list Op) : wf cfg w -> wf cfg (run path_Join w ops).
Proof.
  revert w. induction ops as [|op ops IH]; intros w Hw; [exact Hw|].
  simpl. apply IH, apply_stepSpec, Hw.
Qed.

Lemma run_heapExt (w : World) (ops : list Op) :
  wf cfg w -> heapExt (heap w) (heap (run path_Join w ops)).
Proof.
  revert w. induction ops as [|op ops IH]; intros w Hw; [apply heapExt_refl|].
  simpl. eapply heapExt_trans; [apply (apply_stepSpec w op Hw)|].
  apply IH, apply_stepSpec, Hw.
Qed.

Lemma run_map (w : World) (ops : list Op) :
  wf cfg w ->
  jwtWriteStatusOf (sidecar (run path_Join w ops)) = jwtWriteStatusOf (sidecar w).
Proof.
  revert w. induction ops as [|op ops IH]; intros w Hw; [reflexivity|].
  simpl. rewrite IH by apply apply_stepSpec, Hw.
  apply (apply_stepSpec w op Hw).
Qed.

(** One step: the status of a tracked resource stays, or moves along
    one of the six transitions. *)
Lemma step_transition (w : World) (op : Op) (r : Resource) (old : string) :
  wf cfg w -> status w r = Some old ->
  exists new, status (apply path_Join w op) r = Some new
    /\ (assigns path_Join w op = Some r -> transition old new)
    /\ (assigns path_Join w op <> Some r -> new = old).
Proof.
  intros Hw Hold. destruct (apply_stepSpec w op Hw) as [_ _ _ Hass Hfr].
  pose proof (wf_status _ _ Hw r old Hold) as Hok.
  destruct (assigns path_Join w op) as [r'|] eqn:Ha.
  - destruct (decide (r' = r)) as [->|Hne].
    + destruct (Hass r eq_refl) as [Hn|Hn]; eexists; (split; [exact Hn|]);
        (split; [intros _|intros Hc; exfalso; apply Hc; reflexivity]);
        unfold transition; destruct Hok as [-> | [-> | ->]]; tauto.
    + exists old. rewrite Hfr by congruence.
      split; [exact Hold|]. split; [congruence|reflexivity].
  - exists old. rewrite Hfr by discriminate.
    split; [exact Hold|]. split; [discriminate|reflexivity].
Qed.

Lemma transition_not_unwritten (old new : string) :
  transition old new -> new <> writeStatusUnwritten.
Proof.
  unfold transition.
  intros [[_ ->] | [[_ ->] | [[_ ->] | [[_ ->] | [[_ ->] | [_ ->]]]]]]; discriminate.
Qed.

Lemma run_not_unwritten (w : World) (ops : list Op) (r : Resource) (old : string) :
  wf cfg w -> status w r = Some old -> old <> writeStatusUnwritten ->
  exists new, status (run path_Join w ops) r = Some new /\ new <> writeStatusUnwritten.
Proof.
  revert w old. induction ops as [|op ops IH]; intros w old Hw Hold Hne.
  - exists old. split; assumption.
  - simpl. destruct (step_transition w op r old Hw Hold) as (mid & Hmid & Ht & Hs).
    apply (IH (apply path_Join w op) mid); [apply apply_stepSpec, Hw|exact Hmid|].
    destruct (assigns path_Join w op) as [r'|] eqn:Ha.
    + destruct (decide (r' = r)) as [->|Hd].
      * eapply transition_not_unwritten, Ht. reflexivity.
      * rewrite Hs by congruence. exact Hne.
    + rewrite Hs by discriminate. exact Hne.
Qed.

End Steps.

End TransitionFacts.

Module TransitionSpec.
Import Cfg Time Retry Refresh Sidecar Invariant HealthFacts TransitionFacts.

(** C6: setup leaves every tracked resource Unwritten; from then on,
    under every operation that touches the health state (X.509 update,
    JWT bundle update, JWT SVID update), a tracked resource keeps its
    status when the operation assigns none to it, and otherwise moves
    along Unwritten->Written, Unwritten->Failed, Written->Failed,
    Failed->Written, Written->Written or Failed->Failed; a status that
    has left Unwritten is never Unwritten again. *)
Theorem write_status_transitions (path_Join : string -> string -> string)
    (h : Heap) (cfg : Config) (ops : list Op) :
  let w0 := New path_Join h cfg in
  let w := run path_Join w0 ops in
  (forall r st, status w0 r = Some st -> st = writeStatusUnwritten)
  /\ (forall op r old, status w r = Some old ->
        exists new, status (apply path_Join w op) r = Some new
          /\ (assigns path_Join w op = Some r -> transition old new)
          /\ (assigns path_Join w op <> Some r -> new = old))
  /\ (forall ops' r old, status w r = Some old -> old <> writeStatusUnwritten ->
        exists new, status (run path_Join w ops') r = Some new
          /\ new <> writeStatusUnwritten).
Proof.
  cbv zeta.
  assert (Hw : wf cfg (run path_Join (New path_Join h cfg) ops))
    by apply run_wf, New_wf.
  split; [apply New_unwritten|]. split.
  - intros op r old Hold. eapply step_transition; eassumption.
  - intros ops' r old Hold Hne. eapply run_not_unwritten; eassumption.
Qed.

(** A failed X.509 write followed by a successful one. *)
Lemma write_status_transitions_witness :
  exists new,
    status (apply Scenario.join
              (run Scenario.join (New Scenario.join Scenario.emptyHeap Scenario.cfgX509)
                 [OpX509Update Scenario.x509WriteFails])
              (OpX509Update Scenario.x509OK)) ResX509 = Some new
    /\ transition writeStatusFailed new.
Proof.
  destruct (proj1 (proj2 (write_status_transitions Scenario.join Scenario.emptyHeap
                            Scenario.cfgX509 [OpX509Update Scenario.x509WriteFails]))
              (OpX509Update Scenario.x509OK) ResX509 writeStatusFailed eq_refl)
    as (new & Hnew & Ht & _).
  exists new. split; [exact Hnew|]. apply Ht. reflexivity.
Defined.

End TransitionSpec.

(* ===================================================================== *)
(** * The health probes                                                   *)
(* ===================================================================== *)

Module ProbeFacts.
Import Cfg Time Retry Refresh Sidecar Invariant HealthFacts TransitionFacts.

Lemma noneFailed_false (statuses : list string) :
  noneFailed statuses = false <-> writeStatusFailed ∈ statuses.
Proof.
  induction statuses as [|st rest IH]; simpl.
  - split; [discriminate|]. intros H. inversion H.
  - destruct (String.eqb_spec st writeStatusFailed) as [->|Hne].
    + split; [intros _; left|reflexivity].
    + rewrite IH. split; [intros H; right; exact H|].
      intros H. apply elem_of_cons in H as [H|H]; [congruence|exact H].
Qed.

Lemma allWritten_true (statuses : list string) :
  allWritten statuses = true <-> forall st, st ∈ statuses -> st = writeStatusWritten.
Proof.
  induction statuses as [|st rest IH]; simpl.
  - split; [|reflexivity]. intros _ st H. inversion H.
  - destruct (String.eqb_spec st writeStatusWritten) as [->|Hne]; simpl.
    + rewrite IH. split.
      * intros H st Hst. apply elem_of_cons in Hst as [->|Hst]; [reflexivity|apply H, Hst].
      * intros H st Hst. apply H. right. exact Hst.
    + split; [discriminate|]. intros H. exfalso. apply Hne, H. left.
Qed.

(** The order in which [range] visits the map does not matter. *)
Lemma noneFailed_perm (l l' : list string) : l ≡ₚ l' -> noneFailed l = noneFailed l'.
Proof.
  intros Hp. destruct (noneFailed l) eqn:Hl, (noneFailed l') eqn:Hl'; try reflexivity.
  - apply noneFailed_false in Hl'. rewrite <- Hp in Hl'.
    apply noneFailed_false in Hl'. congruence.
  - apply noneFailed_false in Hl. rewrite Hp in Hl.
    apply noneFailed_false in Hl. congruence.
Qed.

Lemma allWritten_perm (l l' : list string) : l ≡ₚ l' -> allWritten l = allWritten l'.
Proof.
  intros Hp. destruct (allWritten l) eqn:Hl, (allWritten l') eqn:Hl'; try reflexivity.
  - pose proof (proj1 (allWritten_true _) Hl) as Hall.
    rewrite <- Hl'. symmetry. apply allWritten_true.
    intros st Hst. apply Hall. rewrite Hp. exact Hst.
  - pose proof (proj1 (allWritten_true _) Hl') as Hall.
    rewrite <- Hl. apply allWritten_true.
    intros st Hst. apply Hall. rewrite <- Hp. exact Hst.
Qed.

Lemma elem_rangeValues (w : World) (st : string) :
  st ∈ rangeValues w <-> exists path, status w (ResJWT path) = Some st.
Proof.
  unfold rangeValues, status. rewrite list_elem_of_fmap. split.
  - intros ([k v] & -> & Hkv). exists k. apply elem_of_map_to_list in Hkv. exact Hkv.
  - intros (k & Hk). exists (k, st). split; [reflexivity|].
    apply elem_of_map_to_list. exact Hk.
Qed.

Lemma derefX509_status (w : World) (st : string) :
  status w ResX509 = Some st <-> derefX509WriteStatus w = Done st.
Proof.
  unfold status, derefX509WriteStatus.
  destruct (x509WriteStatusOf (sidecar w)) as [p|]; [|split; discriminate].
  destruct (deref (heap w) p); split; congruence.
Qed.

Lemma derefX509_panics (w : World) :
  status w ResX509 = None -> exists msg, derefX509WriteStatus w = Panicked msg.
Proof.
  unfold status, derefX509WriteStatus.
  destruct (x509WriteStatusOf (sidecar w)) as [p|]; [|eauto].
  destruct (deref (heap w) p); [discriminate|eauto].
Qed.

Lemma CheckReadiness_true (w : World) :
  CheckReadiness w = Done true ->
  forall r st, tracked w r -> status w r = Some st -> st = writeStatusWritten.
Proof.
  unfold CheckReadiness.
  destruct (allWritten (rangeValues w)) eqn:Hall; simpl; [|discriminate].
  intros Hx [|path] st Htr Hst.
  - simpl in Htr. rewrite Htr in Hx. simpl in Hx.
    apply derefX509_status in Hst. rewrite Hst in Hx. simpl in Hx.
    injection Hx as Hx. apply String.eqb_eq, Hx.
  - apply (proj1 (allWritten_true _) Hall). apply elem_rangeValues. eauto.
Qed.

Lemma CheckReadiness_false (w : World) (r : Resource) (st : string) :
  tracked w r -> status w r = Some st -> st <> writeStatusWritten ->
  CheckReadiness w = Done false.
Proof.
  intros Htr Hst Hne. unfold CheckReadiness.
  destruct (allWritten (rangeValues w)) eqn:Hall; simpl; [|reflexivity].
  destruct r as [|path].
  - simpl in Htr. rewrite Htr. simpl.
    apply derefX509_status in Hst. rewrite Hst. simpl.
    f_equal. apply String.eqb_neq, Hne.
  - exfalso. apply Hne. apply (proj1 (allWritten_true _) Hall).
    apply elem_rangeValues. eauto.
Qed.

Lemma CheckLiveness_false (w : World) :
  CheckLiveness w = Done false <->
  exists r, tracked w r /\ status w r = Some writeStatusFailed.
Proof.
  unfold CheckLiveness.
  destruct (noneFailed (rangeValues w)) eqn:Hnone; simpl.
  - destruct (x509Enabled (config (sidecar w))) eqn:Hen.
    + split.
      * destruct (derefX509WriteStatus w) as [v|msg] eqn:Hd; simpl; [|discriminate].
        destruct (String.eqb_spec v writeStatusFailed) as [->|Hne]; [|discriminate].
        intros _. exists ResX509. split; [exact Hen|]. apply derefX509_status, Hd.
      * intros ([|path] & Htr & Hst).
        -- apply derefX509_status in Hst. rewrite Hst. reflexivity.
        -- exfalso. assert (Hin : writeStatusFailed ∈ rangeValues w)
             by (apply elem_rangeValues; eauto).
           apply noneFailed_false in Hin. congruence.
    + split; [discriminate|].
      intros ([|path] & Htr & Hst).
      * simpl in Htr. congruence.
      * exfalso. assert (Hin : writeStatusFailed ∈ rangeValues w)
          by (apply elem_rangeValues; eauto).
        apply noneFailed_false in Hin. congruence.
  - split; [|reflexivity]. intros _.
    apply noneFailed_false, elem_rangeValues in Hnone as (path & Hp).
    exists (ResJWT path). split; [exact I|exact Hp].
Qed.

(** On a sidecar made by [New] the probes do not panic. *)
Lemma probes_total (cfg : Config) (w : World) :
  wf cfg w -> exists ready live, CheckReadiness w = Done ready /\ CheckLiveness w = Done live.
Proof.
  intros [Hc Hm Hp He Hs].
  assert (Hd : x509Enabled (config (sidecar w)) = true ->
               exists v, derefX509WriteStatus w = Done v).
  { rewrite Hc. intros Hen. destruct (He Hen) as [p Hptr].
    destruct (Hp p Hptr) as [v Hv]. exists v.
    unfold derefX509WriteStatus. rewrite Hptr, Hv. reflexivity. }
  unfold CheckReadiness, CheckLiveness.
  destruct (x509Enabled (config (sidecar w))).
  - destruct (Hd eq_refl) as [v ->]. simpl.
    destruct (allWritten _), (noneFailed _), (String.eqb v writeStatusFailed); simpl; eauto.
  - destruct (allWritten _), (noneFailed _); simpl; eauto.
Qed.

End ProbeFacts.

Module ProbeSpec.
Import Cfg Time Retry Refresh Sidecar Invariant HealthFacts TransitionFacts ProbeFacts.

(** C7: for every health state, [CheckReadiness] returns false whenever
    a tracked resource is Unwritten or Failed, and returns true only
    when every tracked resource is Written; [CheckLiveness] returns
    false if and only if a tracked resource is Failed, whatever is
    Unwritten elsewhere. On every state of a sidecar made by [New] both
    probes return. *)
Theorem probes_spec (w : World) :
  (forall r st, tracked w r -> status w r = Some st ->
     st = writeStatusUnwritten \/ st = writeStatusFailed ->
     CheckReadiness w = Done false)
  /\ (CheckReadiness w = Done true ->
      forall r st, tracked w r -> status w r = Some st -> st = writeStatusWritten)
  /\ (CheckLiveness w = Done false <->
      exists r, tracked w r /\ status w r = Some writeStatusFailed)
  /\ (forall path_Join h cfg ops, w = run path_Join (New path_Join h cfg) ops ->
      exists ready live, CheckReadiness w = Done ready /\ CheckLiveness w = Done live).
Proof.
  split; [|split; [|split]].
  - intros r st Htr Hst Hor. apply (CheckReadiness_false w r st Htr Hst).
    destruct Hor as [-> | ->]; discriminate.
  - apply CheckReadiness_true.
  - apply CheckLiveness_false.
  - intros path_Join h cfg ops ->. apply (probes_total cfg).
    apply run_wf, New_wf.
Qed.

(** After a failed JWT bundle write, with the JWT SVID still unwritten. *)
Lemma probes_witness :
  CheckReadiness
    (run Scenario.join (New Scenario.join Scenario.emptyHeap Scenario.cfgAll)
       [OpJWTBundlesUpdate (Some Scenario.diskFull)]) = Done false
  /\ exists r,
       tracked (run Scenario.join (New Scenario.join Scenario.emptyHeap Scenario.cfgAll)
                  [OpJWTBundlesUpdate (Some Scenario.diskFull)]) r
       /\ status (run Scenario.join (New Scenario.join Scenario.emptyHeap Scenario.cfgAll)
                    [OpJWTBundlesUpdate (Some Scenario.diskFull)]) r
          = Some writeStatusFailed.
Proof.
  pose proof (probes_spec
                (run Scenario.join (New Scenario.join Scenario.emptyHeap Scenario.cfgAll)
                   [OpJWTBundlesUpdate (Some Scenario.diskFull)])) as (Hr & _ & Hl & _).
  split.
  - apply (Hr (ResJWT "/certs/jwt_svid.token") writeStatusUnwritten I).
    + vm_compute. reflexivity.
    + left. reflexivity.
  - apply Hl. vm_compute. reflexivity.
Defined.

End ProbeSpec.

(* ===================================================================== *)
(** * [GetHealth]                                                         *)
(* ===================================================================== *)

Module SnapshotSpec.
Import Cfg Time Retry Refresh Sidecar Invariant HealthFacts TransitionFacts.

(** C8, as the code has it: the [Health] value [GetHealth] returns is a
    copy of two references. The X.509 status read through it stays what
    it was when the value was returned, whatever the sidecar does
    afterwards; the JWT statuses read through it are those of the one
    map the sidecar keeps writing to, so they are always the current
    ones. *)
Theorem GetHealth_shallow_copy (path_Join : string -> string -> string)
    (h : Heap) (cfg : Config) (ops ops' : list Op) :
  let w := run path_Join (New path_Join h cfg) ops in
  let snapshot := GetHealth w in
  let w' := run path_Join w ops' in
  readX509 (heap w') snapshot = readX509 (heap w) snapshot
  /\ readJWT (heap w') snapshot = readJWT (heap w') (GetHealth w').
Proof.
  cbv zeta.
  set (w := run path_Join (New path_Join h cfg) ops).
  assert (Hw : wf cfg w) by apply run_wf, New_wf.
  split.
  - unfold readX509, GetHealth.
    destruct (X509WriteStatus (health_FileWriteStatuses (health (sidecar w))))
      as [p|] eqn:Hp; [|reflexivity].
    destruct (wf_ptr _ _ Hw p Hp) as [x Hx]. rewrite Hx.
    apply (run_heapExt path_Join cfg w ops' Hw p x Hx).
  - unfold readJWT, GetHealth.
    pose proof (run_map path_Join cfg w ops' Hw) as Hm.
    unfold jwtWriteStatusOf in Hm. rewrite Hm. reflexivity.
Qed.

(** A [Health] value taken right after [New], read again after the JWT
    bundle has been written: the bundle file reads Written through it. *)
Lemma GetHealth_snapshot_follows_writes :
  let w := New Scenario.join Scenario.emptyHeap Scenario.cfgJWT in
  let snapshot := GetHealth w in
  let w' := apply Scenario.join w (OpJWTBundlesUpdate None) in
  readJWT (heap w) snapshot !! "/certs/jwt_bundle.json" = Some writeStatusUnwritten
  /\ readJWT (heap w') snapshot !! "/certs/jwt_bundle.json" = Some writeStatusWritten.
Proof. cbv zeta. split; vm_compute; reflexivity. Qed.

(** The same through a JWT SVID update. *)
Example GetHealth_snapshot_follows_svid :
  let w := New Scenario.join Scenario.emptyHeap Scenario.cfgJWT in
  let snapshot := GetHealth w in
  let w' := apply Scenario.join w (OpJWTSVIDUpdate "jwt_svid.token" Scenario.jwtOK) in
  readJWT (heap w) snapshot !! "/certs/jwt_svid.token" = Some writeStatusUnwritten
  /\ readJWT (heap w') snapshot !! "/certs/jwt_svid.token" = Some writeStatusWritten.
Proof. cbv zeta. split; vm_compute; reflexivity. Qed.

(** The X.509 status of an earlier [Health] value after a later update. *)
Example GetHealth_snapshot_keeps_x509 :
  let w := New Scenario.join Scenario.emptyHeap Scenario.cfgX509 in
  let snapshot := GetHealth w in
  let w' := apply Scenario.join w (OpX509Update Scenario.x509OK) in
  readX509 (heap w') snapshot = Some writeStatusUnwritten
  /\ readX509 (heap w') (GetHealth w') = Some writeStatusWritten.
Proof. cbv zeta. split; vm_compute; reflexivity. Qed.

End SnapshotSpec.

(* ===================================================================== *)
(** * An answer of the issuer without any SVID                            *)
(* ===================================================================== *)

Module ZeroSVIDs.
Import Cfg Time Retry Refresh Sidecar Invariant HealthFacts TransitionFacts RetryFacts.






End ZeroSVIDs.

(* ===================================================================== *)
(** * One credential cycle                                                *)
(* ===================================================================== *)

Module CycleFacts.
Import Cfg Sidecar Invariant.

Section Cycle.
Variable result : Step -> option error.

Local Abbreviation cycle := (Invariant.cycle result).


Lemma fetchAllCredentials_cycle (cfg : Config) :
  fetchAllCredentials cfg result = cycle (enabledSteps cfg).
Proof.
  unfold fetchAllCredentials, enabledSteps.
  destruct (x509Enabled cfg), (jwtBundleEnabled cfg), (jwtSVIDsEnabled cfg); reflexivity.
Qed.

Lemma cycle_success (steps : list Step) :
  (cycle steps).2 = None <-> Forall (fun step => result step = None) steps.
Proof.
  induction steps as [|step steps IH]; simpl.
  - split; [constructor|reflexivity].
  - destruct (result step) eqn:Hr; simpl.
    + split; [discriminate|]. intros H. inversion H; congruence.
    + rewrite IH. split; [intros H; constructor; assumption|].
      intros H. inversion H; assumption.
Qed.

Lemma cycle_all_called (steps : list Step) :
  (cycle steps).2 = None -> (cycle steps).1 = steps.
Proof.
  induction steps as [|step steps IH]; simpl; [reflexivity|].
  destruct (result step); simpl; [discriminate|].
  intros H. rewrite IH by exact H. reflexivity.
Qed.

Lemma cycle_failure (steps : list Step) (e : error) :
  (cycle steps).2 = Some e ->
  exists before step after,
    steps = before ++ step :: after
    /\ (cycle steps).1 = before ++ [step]
    /\ result step = Some e
    /\ Forall (fun step => result step = None) before.
Proof.
  induction steps as [|step steps IH]; simpl; [discriminate|].
  destruct (result step) as [e'|] eqn:Hr; simpl.
  - intros [= ->]. exists [], step, steps. repeat split; auto.
  - intros H. destruct (IH H) as (before & step' & after & -> & Hc & Hs & Hb).
    exists (step :: before), step', after. rewrite Hc. repeat split; auto.
Qed.

End Cycle.

Lemma enabledSteps_order (cfg : Config) :
  sublist (enabledSteps cfg)
    [fetchAndWriteX509Context; fetchAndWriteJWTBundle; fetchAndWriteJWTSVIDs].
Proof.
  unfold enabledSteps.
  destruct (x509Enabled cfg), (jwtBundleEnabled cfg), (jwtSVIDsEnabled cfg); simpl;
    repeat first [apply sublist_nil | apply sublist_skip | apply sublist_cons].
Qed.

End CycleFacts.

Module CycleSpec.
Import Cfg Sidecar Invariant CycleFacts.

(** C5: a cycle calls the enabled steps in the order X.509 context, JWT
    bundle, JWT SVIDs; it returns the error of the first step that
    fails, having called no step after it; it returns nil if and only
    if every enabled step succeeded, and then it has called them all
    (none, when none is enabled). *)
Theorem fetchAllCredentials_spec (cfg : Config) (result : Step -> option error) :
  let called := (fetchAllCredentials cfg result).1 in
  let err := (fetchAllCredentials cfg result).2 in
  sublist (enabledSteps cfg)
    [fetchAndWriteX509Context; fetchAndWriteJWTBundle; fetchAndWriteJWTSVIDs]
  /\ (forall e, err = Some e ->
        exists before step after,
          enabledSteps cfg = before ++ step :: after
          /\ called = before ++ [step]
          /\ result step = Some e
          /\ Forall (fun step => result step = None) before)
  /\ (err = None <-> Forall (fun step => result step = None) (enabledSteps cfg))
  /\ (err = None -> called = enabledSteps cfg)
  /\ (enabledSteps cfg = [] -> err = None).
Proof.
  cbv zeta. rewrite fetchAllCredentials_cycle.
  split; [apply enabledSteps_order|].
  split; [intros e; apply cycle_failure|].
  split; [apply cycle_success|].
  split; [apply cycle_all_called|].
  intros ->. reflexivity.
Qed.

(** Everything enabled, the JWT bundle step fails: the JWT SVIDs step is
    not called. *)
Lemma fetchAllCredentials_witness :
  exists before step after,
    enabledSteps Scenario.cfgAll = before ++ step :: after
    /\ (fetchAllCredentials Scenario.cfgAll
          (fun step => match step with
                       | fetchAndWriteJWTBundle => Some Scenario.diskFull
                       | _ => None
                       end)).1 = before ++ [step]
    /\ step = fetchAndWriteJWTBundle.
Proof.
  destruct (proj1 (proj2 (fetchAllCredentials_spec Scenario.cfgAll
                            (fun step => match step with
                                         | fetchAndWriteJWTBundle => Some Scenario.diskFull
                                         | _ => None
                                         end))) Scenario.diskFull eq_refl)
    as (before & step & after & He & Hc & Hs & Hb).
  exists before, step, after. split; [exact He|]. split; [exact Hc|].
  destruct step; [discriminate|reflexivity|discriminate].
Defined.

Example fetchAllCredentials_fail_fast :
  fetchAllCredentials Scenario.cfgAll
    (fun step => match step with
                 | fetchAndWriteJWTBundle => Some Scenario.diskFull
                 | _ => None
                 end)
  = ([fetchAndWriteX509Context; fetchAndWriteJWTBundle], Some Scenario.diskFull).
Proof. reflexivity. Qed.

End CycleSpec.

(* ===================================================================== *)
(** * The daemon's result                                                 *)
(* ===================================================================== *)

Module DaemonSpec.
Import Cfg Sidecar.

(** C1, on the code: once the clients are set up, [RunDaemon] returns
    the error of [util.RunTasks] when that error is a cancellation, and
    nil in every other case: an error that is not a cancellation is
    dropped, and a cancellation comes back as an error. *)
Theorem RunDaemon_result (cfg : Config) (RunTasks : list Task -> option error) :
  RunDaemon cfg None RunTasks
  = match RunTasks (daemonTasks cfg) with
    | Some e => if errors_Is_Canceled e then Some e else None
    | None => None
    end.
Proof.
  unfold RunDaemon. destruct (RunTasks (daemonTasks cfg)) as [e|]; [|reflexivity].
  destruct (errors_Is_Canceled e); reflexivity.
Qed.

(** The watch daemon, X.509 only: the watcher task ends with an error of
    the issuer, and the caller of [RunDaemon] gets nil; the tasks end
    because the context was cancelled, and the caller gets the
    cancellation as an error. *)
Example RunDaemon_watch_mode :
  ParallelRequests Scenario.cfgX509 = 0
  /\ daemonTasks Scenario.cfgX509 = [watchX509Context]
  /\ RunDaemon Scenario.cfgX509 None (fun _ => Some Scenario.unavailable) = None
  /\ RunDaemon Scenario.cfgX509 None (fun _ => Some context_Canceled) = Some context_Canceled
  /\ RunDaemon Scenario.cfgX509 None
       (fun _ => Some (wrapError "watch x509 context" context_Canceled))
     = Some (wrapError "watch x509 context" context_Canceled).
Proof. repeat split. Qed.

End DaemonSpec.

(* ===================================================================== *)
(** * The child process                                                   *)
(* ===================================================================== *)

Module ProcessFacts.
Import Cfg Sidecar.

Lemma schedule_app (s : Sidecar.Sidecar) (acts acts' : list Action) :
  schedule s (acts ++ acts')
  = let '(s1, ev1) := schedule s acts in
    let '(s2, ev2) := schedule s1 acts' in
    (s2, ev1 ++ ev2).
Proof.
  revert s. induction acts as [|a acts IH]; intros s; simpl.
  - destruct (schedule s acts'). reflexivity.
  - destruct (act s a) as [s1 ev]. rewrite IH.
    destruct (schedule s1 acts) as [s2 ev2].
    destruct (schedule s2 acts') as [s3 ev3]. rewrite app_assoc. reflexivity.
Qed.

(** With a child marked running, an invocation signals it and changes
    nothing. *)
Lemma signalProcess_running (s : Sidecar.Sidecar) (env : ProcEnv) :
  processRunning s = true ->
  (signalProcess s env).1.1 = s
  /\ (signalProcess s env).2 = [EvSignal (process s) (RenewSignal (config s))].
Proof.
  intros Hr. unfold signalProcess. rewrite Hr. simpl.
  destruct (SignalProcess_err env); split; reflexivity.
Qed.

Lemma schedule_running (s : Sidecar.Sidecar) (envs : list ProcEnv) :
  processRunning s = true ->
  schedule s (ActSignalProcess <$> envs)
  = (s, (fun _ => EvSignal (process s) (RenewSignal (config s))) <$> envs).
Proof.
  intros Hr. induction envs as [|env envs IH]; [reflexivity|].
  cbn [fmap list_fmap schedule act].
  destruct (signalProcess_running s env Hr) as [Hs Hev].
  destruct (signalProcess s env) as [[s1 e] ev]. simpl in Hs, Hev. subst s1 ev.
  change (list_fmap _ _ ActSignalProcess envs) with (ActSignalProcess <$> envs).
  rewrite IH. reflexivity.
Qed.

Lemma signalProcess_spawns (s : Sidecar.Sidecar) (env : ProcEnv)
    (cmdArgs : list string) (child : Process) :
  processRunning s = false ->
  Args.getCmdArgs (CmdArgs (config s)) = inl cmdArgs ->
  cmd_Start env = inl child ->
  signalProcess s env
  = (mkSidecar (config s) true (Some child) (health s), None,
     [EvStart (Cmd (config s)) cmdArgs child; EvGoCheckProcessExit]).
Proof.
  intros Hr Ha Hs. unfold signalProcess. rewrite Hr, Ha, Hs. reflexivity.
Qed.

Lemma spawned_signals {A : Type} (l : list A) (target : option Process) (sig : string) :
  spawned ((fun _ => EvSignal target sig) <$> l) = []
  /\ signalled ((fun _ => EvSignal target sig) <$> l) = replicate (length l) target.
Proof.
  induction l as [|a l [IH1 IH2]]; [split; reflexivity|].
  split; [exact IH1|]. simpl. rewrite <- IH2. reflexivity.
Qed.

Lemma spawned_app (l1 l2 : list Event) : spawned (l1 ++ l2) = spawned l1 ++ spawned l2.
Proof. apply omap_app. Qed.

Lemma signalled_app (l1 l2 : list Event) :
  signalled (l1 ++ l2) = signalled l1 ++ signalled l2.
Proof. apply omap_app. Qed.

(** An invocation starts at most one child, and none when one is
    marked running. *)
Lemma act_spawned (s : Sidecar.Sidecar) (a : Action) :
  (length (spawned (act s a).2) <= 1)%nat
  /\ (processRunning s = true -> spawned (act s a).2 = [])
  /\ (a <> ActChildExited -> processRunning s = true -> processRunning (act s a).1 = true)
  /\ (spawned (act s a).2 <> [] -> processRunning (act s a).1 = true).
Proof.
  destruct a as [env|]; simpl.
  - unfold signalProcess. destruct (processRunning s) eqn:Hr; simpl.
    + destruct (SignalProcess_err env); simpl; repeat split; auto.
    + destruct (Args.getCmdArgs _); [destruct (cmd_Start env)|]; simpl;
        repeat split; auto; try discriminate; congruence.
  - repeat split; auto; congruence.
Qed.

(** While no exit of the child is recorded, the invocations of a
    schedule start at most one child between them. *)
Lemma schedule_one_spawn (s : Sidecar.Sidecar) (acts : list Action) :
  Forall (fun a => a <> ActChildExited) acts ->
  (length (spawned (schedule s acts).2) <= 1)%nat
  /\ (processRunning s = true -> spawned (schedule s acts).2 = []).
Proof.
  revert s. induction acts as [|a acts IH]; intros s Hall.
  - simpl. split; [lia|reflexivity].
  - inversion Hall as [|? ? Ha Hacts]; subst. simpl.
    destruct (act_spawned s a) as (H1 & H2 & H3 & H4).
    destruct (act s a) as [s1 ev]. simpl in *.
    destruct (IH s1 Hacts) as [IH1 IH2].
    destruct (schedule s1 acts) as [s2 evs]. simpl in *.
    unfold spawned in *. rewrite omap_app, length_app. split.
    + destruct (omap _ ev) as [|c l] eqn:Hev.
      * simpl. exact IH1.
      * rewrite IH2 by (apply H4; discriminate). simpl in *. lia.
    + intros Hr. rewrite (H2 Hr). simpl. apply IH2, H3; [exact Ha|exact Hr].
Qed.

End ProcessFacts.

Module ProcessSpec.
Import Cfg Sidecar ProcessFacts.

(** C9, as the code has it: the mutex makes N concurrent invocations of
    [signalProcess] take effect one after the other. Starting with no
    child marked running, when the argument string parses, the first
    invocation to get the mutex starts the child, and no exit of that
    child is recorded in between, exactly one child is started and each
    of the other N-1 invocations sends the renewal signal to that
    child. Whatever the outcome of the starts, invocations with no
    recorded exit between them start at most one child. *)
Theorem signalProcess_one_spawn (s : Sidecar.Sidecar) (env : ProcEnv) (envs : list ProcEnv)
    (cmdArgs : list string) (child : Process) :
  processRunning s = false ->
  Args.getCmdArgs (CmdArgs (config s)) = inl cmdArgs ->
  cmd_Start env = inl child ->
  let N := S (length envs) in
  let s' := (schedule s (ActSignalProcess <$> env :: envs)).1 in
  let evs := (schedule s (ActSignalProcess <$> env :: envs)).2 in
  spawned evs = [child]
  /\ signalled evs = replicate (N - 1) (Some child)
  /\ processRunning s' = true
  /\ process s' = Some child
  /\ (forall s0 acts, Forall (fun a => a <> ActChildExited) acts ->
        (length (spawned (schedule s0 acts).2) <= 1)%nat).
Proof.
  intros Hr Ha Hs. cbv zeta.
  cbn [fmap list_fmap schedule act].
  rewrite (signalProcess_spawns s env cmdArgs child Hr Ha Hs).
  change (list_fmap _ _ ActSignalProcess envs) with (ActSignalProcess <$> envs).
  rewrite schedule_running by reflexivity. cbn [fst snd].
  destruct (spawned_signals envs (Some child) (RenewSignal (config s))) as [Hsp Hsg].
  cbn [process config] in *.
  repeat split.
  - rewrite spawned_app, Hsp. reflexivity.
  - rewrite signalled_app, Hsg. simpl. f_equal. lia.
  - intros s0 acts Hall. apply schedule_one_spawn, Hall.
Qed.

(** Three invocations on a fresh sidecar whose command starts. *)
Lemma signalProcess_one_spawn_witness :
  spawned (schedule (sidecar (New Scenario.join Scenario.emptyHeap Scenario.cfgX509))
             (ActSignalProcess <$> [Scenario.procOK 4242; Scenario.procOK 4243;
                                    Scenario.procOK 4244])).2 = [4242]
  /\ signalled (schedule (sidecar (New Scenario.join Scenario.emptyHeap Scenario.cfgX509))
                  (ActSignalProcess <$> [Scenario.procOK 4242; Scenario.procOK 4243;
                                         Scenario.procOK 4244])).2
     = [Some 4242; Some 4242].
Proof.
  destruct (signalProcess_one_spawn
              (sidecar (New Scenario.join Scenario.emptyHeap Scenario.cfgX509))
              (Scenario.procOK 4242) [Scenario.procOK 4243; Scenario.procOK 4244]
              ["-s"; "reload"] 4242 eq_refl eq_refl eq_refl) as (Hsp & Hsg & _).
  split; [exact Hsp|exact Hsg].
Defined.

(** Two invocations on a sidecar whose command cannot be started: no
    child is started and no signal is sent. *)
Lemma signalProcess_start_fails :
  let s := sidecar (New Scenario.join Scenario.emptyHeap Scenario.cfgX509) in
  let evs := (schedule s (ActSignalProcess <$> [Scenario.procFails; Scenario.procFails])).2 in
  processRunning s = false
  /\ spawned evs = []
  /\ signalled evs = [].
Proof. cbv zeta. repeat split. Qed.

(** Two invocations with the exit of the first child recorded between
    them: the second one starts a second child. *)
Example signalProcess_respawn :
  let s := sidecar (New Scenario.join Scenario.emptyHeap Scenario.cfgX509) in
  let evs := (schedule s [ActSignalProcess (Scenario.procOK 4242); ActChildExited;
                          ActSignalProcess (Scenario.procOK 4243)]).2 in
  spawned evs = [4242; 4243] /\ signalled evs = [].
Proof. cbv zeta. repeat split. Qed.

End ProcessSpec.

(* ===================================================================== *)
(** * The argument string of the child command                            *)
(* ===================================================================== *)

Module ArgsFacts.
Import Csv Args.

Lemma readLines_no_CR (input : list ascii) :
  Forall (fun c => c <> CR) input -> readLines input = input.
Proof.
  induction 1 as [|c rest Hc _ IH]; [reflexivity|].
  simpl. destruct (Ascii.eqb_spec c CR); [contradiction|]. rewrite IH. reflexivity.
Qed.

Lemma skipEmptyLines_record (c : ascii) (rest : list ascii) :
  c <> LF -> skipEmptyLines (c :: rest) = c :: rest.
Proof. intros Hc. simpl. destruct (Ascii.eqb_spec c LF); [contradiction|reflexivity]. Qed.

(** Without quotes and line ends, a record is the line cut at the
    delimiter. *)
Lemma readRecord_plain (comma : ascii) (line : list ascii) :
  Forall (fun c => c <> quote /\ c <> LF) line ->
  forall pos field fields,
    (pos = FieldStart /\ field = []) \/ pos = NonQuoted ->
    readRecord comma pos field fields line = inl (rev fields ++ split comma field line).
Proof.
  induction 1 as [|c rest [Hq Hl] _ IH]; intros pos field fields Hpos.
  - simpl. unfold endField. cbn [rev].
    destruct Hpos as [[-> ->] | ->]; reflexivity.
  - assert (Hstep : readRecord comma pos field fields (c :: rest)
                    = if Ascii.eqb c comma
                      then readRecord comma FieldStart [] (endField field fields) rest
                      else readRecord comma NonQuoted (c :: field) fields rest).
    { simpl. destruct Hpos as [[-> ->] | ->];
        destruct (Ascii.eqb_spec c quote); try contradiction;
        destruct (Ascii.eqb c comma); try reflexivity;
        destruct (Ascii.eqb_spec c LF); try contradiction; reflexivity. }
    rewrite Hstep. simpl. destruct (Ascii.eqb c comma).
    + rewrite IH by (left; split; reflexivity).
      unfold endField. cbn [rev]. rewrite <- app_assoc. reflexivity.
    + rewrite IH by (right; reflexivity). reflexivity.
Qed.


Lemma getCmdArgs_nonempty (args : string) :
  args <> EmptyString -> getCmdArgs args = Read space args.
Proof.
  intros Hne. unfold getCmdArgs.
  destruct (String.eqb_spec args EmptyString); [contradiction|].
  destruct (Read space args); reflexivity.
Qed.

Lemma Read_plain (args : string) :
  args <> EmptyString ->
  Forall (fun c => c <> quote /\ c <> CR /\ c <> LF) (String.list_ascii_of_string args) ->
  Read space args = inl (split space [] (String.list_ascii_of_string args)).
Proof.
  intros Hne Hall. unfold Read. simpl validDelim. cbv iota.
  rewrite readLines_no_CR by (eapply Forall_impl; [exact Hall|]; simpl; tauto).
  destruct (String.list_ascii_of_string args) as [|c rest] eqn:Hl.
  - exfalso. apply Hne. destruct args; [reflexivity|discriminate].
  - rewrite skipEmptyLines_record by (inversion Hall; tauto).
    rewrite <- Hl in *.
    rewrite (readRecord_plain space _) with (pos := FieldStart) (field := []) (fields := []).
    + rewrite Hl. reflexivity.
    + eapply Forall_impl; [exact Hall|]. simpl. tauto.
    + left. split; reflexivity.
Qed.


End ArgsFacts.

Module ArgsSpec.
Import Csv Args ArgsFacts.



Example getCmdArgs_two_spaces : getCmdArgs "a b  c" = inl ["a"; "b"; ""; "c"].
Proof. reflexivity. Qed.

(** A quoted argument with spaces, then a plain one. *)
Example getCmdArgs_quoted :
  getCmdArgs (String quote "a b" +:+ String quote " c") = inl ["a b"; "c"].
Proof. reflexivity. Qed.

(** Two quotes inside a quoted argument stand for one. *)
Example getCmdArgs_escaped_quote :
  getCmdArgs (String quote "a" +:+ String quote (String quote "b") +:+ String quote EmptyString)
  = inl ["a" +:+ String quote "b"].
Proof. reflexivity. Qed.

(** A quote inside a plain argument, and a quote that is never closed. *)
Example getCmdArgs_bare_quote :
  getCmdArgs ("a" +:+ String quote "b") = inr ErrBareQuote.
Proof. reflexivity. Qed.

Example getCmdArgs_open_quote :
  getCmdArgs (String quote "abc") = inr ErrQuote.
Proof. reflexivity. Qed.

(** A string of line ends only holds no record. *)
Example getCmdArgs_only_newline : getCmdArgs (String LF EmptyString) = inr EOF.
Proof. reflexivity. Qed.

End ArgsSpec.

(* ===================================================================== *)
(** * Runs of the JWT SVID loop                                           *)
(* ===================================================================== *)

Module LoopScenario.
Import Cfg Time Retry Refresh Sidecar Invariant.


(** Three failed fetches, a success, a failed fetch: 1s, 2s, 4s, then
    half of the five minutes the token lives plus 1s, then 1s again. *)
Example updateJWTSVID_backoff_and_reset :
  periods (updateJWTSVID Scenario.join
             (New Scenario.join Scenario.emptyHeap Scenario.cfgJWT) "jwt_svid.token"
             Scenario.jwtFetchFails
             [Scenario.jwtFetchFails; Scenario.jwtFetchFails; Scenario.jwtOK;
              Scenario.jwtFetchFails])
  = Some [1 * Second; 2 * Second; 4 * Second; 151 * Second; 1 * Second].
Proof. vm_compute. reflexivity. Qed.

(** A fetch failure leaves the status of the file as it was. *)
Example fetch_failure_keeps_status :
  status (performJWTSVIDUpdate Scenario.join
            (New Scenario.join Scenario.emptyHeap Scenario.cfgJWT) "jwt_svid.token"
            Scenario.jwtFetchFails).1 (ResJWT "/certs/jwt_svid.token")
  = Some writeStatusUnwritten.
Proof. vm_compute. reflexivity. Qed.

(** X.509 only: a first update is written and starts the child, a
    second one fails on disk, a third one is written and signals the
    child instead of starting another. *)
Example x509_written_failed_written :
  let w0 := New Scenario.join Scenario.emptyHeap Scenario.cfgX509 in
  let '(w1, ev1) := updateCertificates w0 Scenario.x509OK in
  let '(w2, ev2) := updateCertificates w1 Scenario.x509WriteFails in
  let '(w3, ev3) := updateCertificates w2 Scenario.x509OK in
  (status w1 ResX509, spawned ev1) = (Some writeStatusWritten, [4242])
  /\ (status w2 ResX509, CheckLiveness w2) = (Some writeStatusFailed, Done false)
  /\ (status w3 ResX509, CheckLiveness w3) = (Some writeStatusWritten, Done true)
  /\ (spawned ev3, signalled ev3) = ([], [Some 4242]).
Proof. vm_compute. repeat split. Qed.

End LoopScenario.

(* ===================================================================== *)
(** * More on the health state                                            *)
(* ===================================================================== *)

Module HealthMore.
Import Cfg Time Retry Refresh Sidecar Invariant Modes HealthFacts TransitionFacts ProbeFacts.

Lemma allWritten_noneFailed (statuses : list string) :
  allWritten statuses = true -> noneFailed statuses = true.
Proof.
  induction statuses as [|st rest IH]; simpl; [reflexivity|].
  destruct (String.eqb_spec st writeStatusWritten) as [->|Hne]; simpl; [|discriminate].
  exact IH.
Qed.

(** X1: Readiness implies liveness: whenever [CheckReadiness] answers true,
    [CheckLiveness] answers true as well. *)
Theorem ready_implies_live (w : World) :
  CheckReadiness w = Done true -> CheckLiveness w = Done true.
Proof.
  unfold CheckReadiness, CheckLiveness.
  destruct (allWritten (rangeValues w)) eqn:Hall; simpl; [|discriminate].
  rewrite (allWritten_noneFailed _ Hall). simpl.
  destruct (x509Enabled (config (sidecar w))); simpl; [|reflexivity].
  destruct (derefX509WriteStatus w) as [v|msg]; simpl; [|discriminate].
  intros [= Hv]. apply String.eqb_eq in Hv. subst v. reflexivity.
Qed.

(** After two successful writes of everything [cfgAll] configures. *)
Lemma ready_implies_live_witness :
  CheckLiveness
    (run Scenario.join (New Scenario.join Scenario.emptyHeap Scenario.cfgAll)
       [OpX509Update Scenario.x509OK; OpJWTBundlesUpdate None;
        OpJWTSVIDUpdate "jwt_svid.token" Scenario.jwtOK]) = Done true.
Proof. apply ready_implies_live. vm_compute. reflexivity. Defined.

Section Fold.
Context {A : Type} (key : A -> string) (v : string).

Lemma fold_setJWT_status_x509 (keys : list A) (w : World) :
  status (fold_left (fun w a => setJWTWriteStatus w (key a) v) keys w) ResX509
  = status w ResX509.
Proof.
  revert w. induction keys as [|a keys IH]; intros w; [reflexivity|].
  cbn [fold_left]. rewrite IH. apply setJWT_status_x509.
Qed.

Lemma fold_setJWT_status_jwt (keys : list A) (w : World) (path : string) :
  validMap w ->
  status (fold_left (fun w a => setJWTWriteStatus w (key a) v) keys w) (ResJWT path)
  = if decide (path ∈ key <$> keys) then Some v else status w (ResJWT path).
Proof.
  revert w. induction keys as [|a keys IH]; intros w Hm.
  - simpl. destruct (decide (path ∈ [])) as [Hin|_]; [inversion Hin|reflexivity].
  - cbn [fold_left]. rewrite IH by apply setJWT_validMap, Hm.
    rewrite fmap_cons.
    destruct (decide (path ∈ key <$> keys)) as [Hin|Hnin].
    + rewrite decide_True by (right; exact Hin). reflexivity.
    + destruct (decide (key a = path)) as [<-|Hne].
      * rewrite decide_True by left. apply setJWT_status_eq, Hm.
      * rewrite decide_False.
        -- apply setJWT_status_ne, Hne.
        -- intros Hin. apply elem_of_cons in Hin as [Heq|Hin]; congruence.
Qed.

End Fold.

Lemma New_status_configured (path_Join : string -> string -> string)
    (h : Heap) (cfg : Config) (r : Resource) :
  (configured path_Join cfg r ->
   status (New path_Join h cfg) r = Some writeStatusUnwritten)
  /\ (~ configured path_Join cfg r -> status (New path_Join h cfg) r = None).
Proof.
  unfold New, makeMap.
  set (w0 := mkWorld (mkHeap (stringVars h) (mapObjs h ++ [∅]))
               (mkSidecar cfg false None
                  (mkHealth (mkFileWriteStatuses None (length (mapObjs h)))))).
  assert (Hm0 : validMap w0).
  { unfold validMap, jwtWriteStatusOf. simpl. rewrite length_app. simpl. lia. }
  assert (H0 : forall r, status w0 r = None).
  { intros [|k]; [reflexivity|]. simpl.
    unfold mapAt, jwtWriteStatusOf. simpl.
    rewrite list_lookup_middle by reflexivity. simpl. apply lookup_empty. }
  unfold setupHealth. change (config (sidecar w0)) with cfg.
  set (w1 := if x509Enabled cfg then setX509WriteStatus w0 writeStatusUnwritten else w0).
  assert (H1 : validMap w1
               /\ status w1 ResX509
                  = (if x509Enabled cfg then Some writeStatusUnwritten else None)
               /\ forall k, status w1 (ResJWT k) = None).
  { subst w1. destruct (x509Enabled cfg).
    - split; [apply setX509_validMap, Hm0|]. split; [apply setX509_status_x509|].
      intros k. rewrite setX509_status_jwt. apply H0.
    - split; [exact Hm0|]. split; [apply H0|]. intros k. apply H0. }
  clearbody w1. destruct H1 as (Hm1 & Hx1 & Hj1).
  set (bundlePath := path_Join (CertDir cfg) (JWTBundleFilename cfg)).
  set (w2 := if jwtBundleEnabled cfg
             then setJWTWriteStatus w1 bundlePath writeStatusUnwritten else w1).
  assert (H2 : validMap w2
               /\ status w2 ResX509 = status w1 ResX509
               /\ forall k, status w2 (ResJWT k)
                    = if decide (jwtBundleEnabled cfg = true /\ k = bundlePath)
                      then Some writeStatusUnwritten else None).
  { subst w2. destruct (jwtBundleEnabled cfg).
    - split; [apply setJWT_validMap, Hm1|]. split; [apply setJWT_status_x509|].
      intros k. destruct (decide (bundlePath = k)) as [<-|Hne].
      + rewrite decide_True by (split; reflexivity). apply setJWT_status_eq, Hm1.
      + rewrite decide_False by (intros [_ ->]; apply Hne; reflexivity).
        rewrite setJWT_status_ne by exact Hne. apply Hj1.
    - split; [exact Hm1|]. split; [reflexivity|].
      intros k. rewrite decide_False by (intros [? _]; discriminate). apply Hj1. }
  clearbody w2. destruct H2 as (Hm2 & Hx2 & Hj2).
  destruct r as [|path]; simpl configured.
  - rewrite fold_setJWT_status_x509, Hx2, Hx1.
    destruct (x509Enabled cfg); split; congruence.
  - rewrite fold_setJWT_status_jwt by exact Hm2. rewrite Hj2.
    destruct (decide (path ∈ _)) as [Hin|Hnin].
    + split; [reflexivity|]. intros Hn. exfalso. apply Hn. right.
      apply list_elem_of_fmap in Hin as (jc & -> & Hjc). eauto.
    + destruct (decide (jwtBundleEnabled cfg = true /\ path = bundlePath)) as [Hb|Hnb].
      * split; [reflexivity|]. intros Hn. exfalso. apply Hn. left. exact Hb.
      * split; [|reflexivity]. intros [Hb|(jc & Hjc & ->)]; [contradiction|].
        exfalso. apply Hnin. apply list_elem_of_fmap. eauto.
Qed.

Lemma configured_dec (path_Join : string -> string -> string) (cfg : Config)
    (r : Resource) :
  configured path_Join cfg r \/ ~ configured path_Join cfg r.
Proof.
  destruct r as [|path]; simpl.
  - destruct (x509Enabled cfg); [left; reflexivity|right; discriminate].
  - destruct (decide (path ∈ (fun jc => path_Join (CertDir cfg) (JWTSVIDFilename jc))
                               <$> JWTSVIDs cfg)) as [Hin|Hnin].
    + left. right. apply list_elem_of_fmap in Hin as (jc & -> & Hjc). eauto.
    + destruct (decide (jwtBundleEnabled cfg = true
                        /\ path = path_Join (CertDir cfg) (JWTBundleFilename cfg)))
        as [Hb|Hnb]; [left; left; exact Hb|].
      right. intros [Hb|(jc & Hjc & ->)]; [contradiction|].
      apply Hnin. apply list_elem_of_fmap. eauto.
Qed.

(** X2: [New] tracks the resources the configuration names and no
    other: X.509 when it is enabled, the JWT bundle file when one is
    named, and the file of each configured JWT SVID. Each of them starts
    Unwritten; any other resource has no status. *)
Theorem New_tracks_configured (path_Join : string -> string -> string)
    (h : Heap) (cfg : Config) (r : Resource) :
  (status (New path_Join h cfg) r = Some writeStatusUnwritten <->
   configured path_Join cfg r)
  /\ (status (New path_Join h cfg) r = None <-> ~ configured path_Join cfg r)
  /\ (forall st, status (New path_Join h cfg) r = Some st -> st = writeStatusUnwritten).
Proof.
  destruct (New_status_configured path_Join h cfg r) as [Hyes Hno].
  split; [|split].
  - split; [|exact Hyes]. intros Hst.
    destruct (configured_dec path_Join cfg r) as [Hc|Hn]; [exact Hc|].
    rewrite (Hno Hn) in Hst. discriminate.
  - split; [|exact Hno]. intros Hst Hc. rewrite (Hyes Hc) in Hst. discriminate.
  - intros st Hst.
    destruct (configured_dec path_Join cfg r) as [Hc|Hn].
    + rewrite (Hyes Hc) in Hst. congruence.
    + rewrite (Hno Hn) in Hst. discriminate.
Qed.

Lemma New_tracks_configured_witness :
  configured Scenario.join Scenario.cfgJWT (ResJWT "/certs/jwt_svid.token")
  /\ status (New Scenario.join Scenario.emptyHeap Scenario.cfgJWT) ResX509 = None.
Proof.
  split.
  - apply (New_tracks_configured Scenario.join Scenario.emptyHeap). vm_compute. reflexivity.
  - apply (New_tracks_configured Scenario.join Scenario.emptyHeap). simpl. discriminate.
Defined.

End HealthMore.

Module FreshAndX509.
Import Cfg Time Retry Refresh Sidecar Invariant Modes HealthFacts TransitionFacts ProbeFacts
  HealthMore.

(** X3: A sidecar fresh from [New] is live; it is ready exactly when its
    configuration names no resource at all, and not ready as soon as it
    names one. *)
Theorem fresh_sidecar_probes (path_Join : string -> string -> string)
    (h : Heap) (cfg : Config) :
  let w := New path_Join h cfg in
  CheckLiveness w = Done true
  /\ (CheckReadiness w = Done true <-> forall r, ~ configured path_Join cfg r)
  /\ ((exists r, configured path_Join cfg r) -> CheckReadiness w = Done false).
Proof.
  cbv zeta. set (w := New path_Join h cfg).
  assert (Hw : wf cfg w) by apply New_wf.
  assert (Htr : forall r, configured path_Join cfg r -> tracked w r).
  { intros [|k] Hc; [|exact I]. simpl. rewrite (wf_config _ _ Hw). exact Hc. }
  assert (Hfalse : forall r, configured path_Join cfg r -> CheckReadiness w = Done false).
  { intros r Hc. apply (CheckReadiness_false w r writeStatusUnwritten (Htr r Hc)).
    - apply New_status_configured, Hc.
    - discriminate. }
  destruct (probes_total cfg w Hw) as (ready & live & Hr & Hl).
  split; [|split].
  - destruct live; [exact Hl|]. exfalso.
    apply CheckLiveness_false in Hl as (r & _ & Hst).
    pose proof (New_unwritten path_Join h cfg r _ Hst). discriminate.
  - split.
    + intros Ht r Hc. rewrite (Hfalse r Hc) in Ht. discriminate.
    + intros Hnone. unfold CheckReadiness.
      assert (Hall : allWritten (rangeValues w) = true).
      { apply allWritten_true. intros st Hst. exfalso.
        apply elem_rangeValues in Hst as (k & Hk).
        destruct (New_status_configured path_Join h cfg (ResJWT k)) as [_ Hn].
        fold w in Hn. rewrite (Hn (Hnone _)) in Hk. discriminate. }
      rewrite Hall. simpl. rewrite (wf_config _ _ Hw).
      destruct (x509Enabled cfg) eqn:Hx; [|reflexivity].
      exfalso. apply (Hnone ResX509). exact Hx.
  - intros (r & Hc). apply (Hfalse r Hc).
Qed.

Lemma fresh_sidecar_probes_witness :
  CheckReadiness (New Scenario.join Scenario.emptyHeap Scenario.cfgX509) = Done false.
Proof.
  apply (fresh_sidecar_probes Scenario.join Scenario.emptyHeap Scenario.cfgX509).
  exists ResX509. reflexivity.
Defined.

Lemma signalProcess_no_certReady (s : Sidecar.Sidecar) (env : ProcEnv) :
  EvCertReady ∉ (signalProcess s env).2.
Proof.
  unfold signalProcess.
  destruct (negb (processRunning s)).
  - destruct (Args.getCmdArgs _); [destruct (cmd_Start env)|]; simpl;
      rewrite ?elem_of_cons, ?elem_of_nil; intuition discriminate.
  - destruct (SignalProcess_err env); simpl;
      rewrite ?elem_of_cons, ?elem_of_nil; intuition discriminate.
Qed.

(** X4: An X.509 update touches no JWT status. When the disk write fails the
    status is Failed, nothing is started or signalled and the child
    state stays as it was. When it succeeds the status is Written
    whatever the child command, the pid file and the reload hook do, and
    [certReady] is called once, after all of them. *)
Theorem updateCertificates_effects (w : World) (env : X509Env) :
  let w' := (updateCertificates w env).1 in
  let evs := (updateCertificates w env).2 in
  (forall k, status w' (ResJWT k) = status w (ResJWT k))
  /\ (WriteX509Context_err env <> None ->
      status w' ResX509 = Some writeStatusFailed
      /\ evs = []
      /\ processRunning (sidecar w') = processRunning (sidecar w)
      /\ process (sidecar w') = process (sidecar w))
  /\ (WriteX509Context_err env = None ->
      status w' ResX509 = Some writeStatusWritten
      /\ exists side, evs = side ++ [EvCertReady] /\ EvCertReady ∉ side).
Proof.
  cbv zeta.
  destruct (updateCertificates_world w env) as (Hh & Hc & Hs).
  assert (Hst : forall r, status (updateCertificates w env).1 r
                          = status (setX509WriteStatus w
                                      match WriteX509Context_err env with
                                      | Some _ => writeStatusFailed
                                      | None => writeStatusWritten
                                      end) r)
    by (intros r; apply status_ext; assumption).
  split; [intros k; rewrite Hst; apply setX509_status_jwt|].
  split.
  - intros Hne. rewrite Hst. unfold updateCertificates.
    destruct (WriteX509Context_err env); [|contradiction].
    split; [apply setX509_status_x509|]. repeat split.
  - intros Hnone. rewrite Hst. unfold updateCertificates. rewrite Hnone.
    split; [apply setX509_status_x509|].
    set (w1 := setX509WriteStatus w writeStatusWritten).
    destruct (nonempty (Cmd (config (sidecar w1)))).
    + pose proof (signalProcess_no_certReady (sidecar w1) (x509_proc env)) as Hno.
      destruct (signalProcess (sidecar w1) (x509_proc env)) as [[s e] ev]. simpl in *.
      exists (ev ++ (if nonempty (PIDFilename (config s)) then [EvSignalPID] else [])
                 ++ (if ReloadExternalProcess (config s) then [EvReload] else [])).
      split; [rewrite <- !app_assoc; reflexivity|].
      rewrite !elem_of_app. intros [H|[H|H]]; [contradiction| |].
      * destruct (nonempty _); [apply list_elem_of_singleton in H; discriminate|inversion H].
      * destruct (ReloadExternalProcess _);
          [apply list_elem_of_singleton in H; discriminate|inversion H].
    + simpl.
      exists ((if nonempty (PIDFilename (config (sidecar w1))) then [EvSignalPID] else [])
              ++ (if ReloadExternalProcess (config (sidecar w1)) then [EvReload] else [])).
      split; [rewrite <- !app_assoc; reflexivity|].
      rewrite !elem_of_app. intros [H|H].
      * destruct (nonempty _); [apply list_elem_of_singleton in H; discriminate|inversion H].
      * destruct (ReloadExternalProcess _);
          [apply list_elem_of_singleton in H; discriminate|inversion H].
Qed.

(** The disk is full at the second update of a sidecar with a child. *)
Lemma updateCertificates_effects_witness :
  (updateCertificates
     (run Scenario.join (New Scenario.join Scenario.emptyHeap Scenario.cfgX509)
        [OpX509Update Scenario.x509OK]) Scenario.x509WriteFails).2 = [].
Proof.
  apply (updateCertificates_effects
           (run Scenario.join (New Scenario.join Scenario.emptyHeap Scenario.cfgX509)
              [OpX509Update Scenario.x509OK]) Scenario.x509WriteFails).
  discriminate.
Defined.

End FreshAndX509.

(* ===================================================================== *)
(** * More on JWT SVID updates                                            *)
(* ===================================================================== *)

Module JWTMore.
Import Cfg Time Retry Refresh Sidecar Invariant Modes DurationFacts RetryFacts RefreshFacts
  HealthFacts TransitionFacts.

Lemma validateAll_None (validate : SVID -> option error) (jwtSVIDs : list SVID) :
  validateAll validate jwtSVIDs = None <-> Forall (fun svid => validate svid = None) jwtSVIDs.
Proof.
  induction jwtSVIDs as [|svid rest IH]; simpl.
  - split; [constructor|reflexivity].
  - destruct (validate svid) eqn:Hv.
    + split; [discriminate|]. intros H. inversion H; congruence.
    + rewrite IH. split; [intros H; constructor; assumption|].
      intros H. inversion H; assumption.
Qed.

Lemma validateAll_Some (validate : SVID -> option error) (jwtSVIDs : list SVID) (e : error) :
  validateAll validate jwtSVIDs = Some e ->
  exists before svid after,
    jwtSVIDs = before ++ svid :: after
    /\ validate svid = Some e
    /\ Forall (fun svid => validate svid = None) before.
Proof.
  induction jwtSVIDs as [|svid rest IH]; simpl; [discriminate|].
  destruct (validate svid) as [e'|] eqn:Hv.
  - intros [= ->]. exists [], svid, rest. repeat split; auto.
  - intros H. destruct (IH H) as (before & svid' & after & -> & Hs & Hb).
    exists (svid :: before), svid', after. repeat split; auto.
Qed.

(** X5: [fetchJWTSVIDs] is all or nothing: it returns the list the source
    answered exactly when the fetch succeeded and every token of the
    answer validates; otherwise its error is the error of the fetch or
    of the first token that does not validate, and
    [performJWTSVIDUpdate] returns that error with the sidecar and its
    health state untouched. *)
Theorem fetchJWTSVIDs_all_or_nothing (env : JWTEnv) :
  (forall jwtSVIDs,
     fetchJWTSVIDs env = inl jwtSVIDs <->
     FetchJWTSVIDs_res env = inl jwtSVIDs
     /\ Forall (fun svid => ParseAndValidate_err env svid = None) jwtSVIDs)
  /\ (forall e, fetchJWTSVIDs env = inr e ->
        FetchJWTSVIDs_res env = inr e
        \/ exists before svid after,
             FetchJWTSVIDs_res env = inl (before ++ svid :: after)
             /\ ParseAndValidate_err env svid = Some e
             /\ Forall (fun svid => ParseAndValidate_err env svid = None) before)
  /\ (forall path_Join w fn e, fetchJWTSVIDs env = inr e ->
        performJWTSVIDUpdate path_Join w fn env = (w, inr e)).
Proof.
  unfold fetchJWTSVIDs. split; [|split].
  - intros l. destruct (FetchJWTSVIDs_res env) as [l'|e'].
    + destruct (validateAll (ParseAndValidate_err env) l') eqn:Hv.
      * split; [discriminate|]. intros [[= <-] Hall].
        apply validateAll_None in Hall. congruence.
      * apply validateAll_None in Hv. split.
        -- intros [= <-]. split; [reflexivity|exact Hv].
        -- intros [[= <-] _]. reflexivity.
    + split; [discriminate|]. intros [? _]. discriminate.
  - intros e. destruct (FetchJWTSVIDs_res env) as [l'|e'].
    + destruct (validateAll (ParseAndValidate_err env) l') eqn:Hv; [|discriminate].
      intros [= <-]. right.
      destruct (validateAll_Some _ _ _ Hv) as (before & svid & after & -> & Hs & Hb).
      exists before, svid, after. auto.
    + intros [= <-]. left. reflexivity.
  - intros path_Join w fn e He. unfold performJWTSVIDUpdate, fetchJWTSVIDs.
    rewrite He. reflexivity.
Qed.

(** The second of two tokens does not validate. *)
Lemma fetchJWTSVIDs_all_or_nothing_witness :
  performJWTSVIDUpdate Scenario.join
    (New Scenario.join Scenario.emptyHeap Scenario.cfgJWT) "jwt_svid.token"
    (mkJWTEnv (inl [Scenario.svid 300; Scenario.svid 0])
       (fun svid => if svid_Expiry svid =? 0
                    then Some (errorString "token has expired") else None)
       (fun _ => None) 0)
  = (New Scenario.join Scenario.emptyHeap Scenario.cfgJWT,
     inr (errorString "token has expired")).
Proof.
  apply (fetchJWTSVIDs_all_or_nothing
           (mkJWTEnv (inl [Scenario.svid 300; Scenario.svid 0])
              (fun svid => if svid_Expiry svid =? 0
                           then Some (errorString "token has expired") else None)
              (fun _ => None) 0)).
  reflexivity.
Defined.

(** X6: On a sidecar made by [New], [performJWTSVIDUpdate] returns a list
    only when it is the fetched list and the writer took it, and then
    the file is Written; when the writer refuses the fetched list it
    returns the writer's error and the file is Failed; every other
    resource keeps its status. *)
Theorem performJWTSVIDUpdate_outcome (path_Join : string -> string -> string)
    (h : Heap) (cfg : Config) (ops : list Op) (fn : string) (env : JWTEnv) :
  let w := run path_Join (New path_Join h cfg) ops in
  let jwtSVIDPath := path_Join (CertDir cfg) fn in
  let w' := (performJWTSVIDUpdate path_Join w fn env).1 in
  let res := (performJWTSVIDUpdate path_Join w fn env).2 in
  (forall jwtSVIDs, res = inl jwtSVIDs ->
     fetchJWTSVIDs env = inl jwtSVIDs
     /\ WriteJWTSVID_err env jwtSVIDs = None
     /\ status w' (ResJWT jwtSVIDPath) = Some writeStatusWritten)
  /\ (forall jwtSVIDs e, fetchJWTSVIDs env = inl jwtSVIDs ->
        WriteJWTSVID_err env jwtSVIDs = Some e ->
        res = inr e /\ status w' (ResJWT jwtSVIDPath) = Some writeStatusFailed)
  /\ (forall r, r <> ResJWT jwtSVIDPath -> status w' r = status w r).
Proof.
  cbv zeta. set (w := run path_Join (New path_Join h cfg) ops).
  assert (Hw : wf cfg w) by apply run_wf, New_wf.
  unfold performJWTSVIDUpdate. rewrite (wf_config _ _ Hw).
  destruct (fetchJWTSVIDs env) as [l|e]; [destruct (WriteJWTSVID_err env l) eqn:Hwr|];
    cbn [fst snd].
  - split; [discriminate|]. split.
    + intros l' e' [= <-] He. rewrite Hwr in He. injection He as <-.
      split; [reflexivity|apply setJWT_status_eq, Hw].
    + intros [|k] Hne; [apply setJWT_status_x509|apply setJWT_status_ne; congruence].
  - split.
    + intros l' [= <-]. repeat split; [exact Hwr|apply setJWT_status_eq, Hw].
    + split; [intros l' e' [= <-] He; congruence|].
      intros [|k] Hne; [apply setJWT_status_x509|apply setJWT_status_ne; congruence].
  - split; [discriminate|]. split; [discriminate|reflexivity].
Qed.

Lemma performJWTSVIDUpdate_outcome_witness :
  (performJWTSVIDUpdate Scenario.join
     (run Scenario.join (New Scenario.join Scenario.emptyHeap Scenario.cfgJWT) [])
     "jwt_svid.token"
     (mkJWTEnv (inl [Scenario.svid 300]) (fun _ => None)
        (fun _ => Some Scenario.diskFull) 0)).2 = inr Scenario.diskFull.
Proof.
  apply (proj1 (proj2 (performJWTSVIDUpdate_outcome Scenario.join Scenario.emptyHeap
                         Scenario.cfgJWT [] "jwt_svid.token"
                         (mkJWTEnv (inl [Scenario.svid 300]) (fun _ => None)
                            (fun _ => Some Scenario.diskFull) 0)))
           [Scenario.svid 300] Scenario.diskFull eq_refl eq_refl).
Defined.

End JWTMore.

(* ===================================================================== *)
(** * The JWT SVID loop as a whole                                        *)
(* ===================================================================== *)

Module LoopFacts.
Import Cfg Time Retry Refresh Sidecar Invariant Modes DurationFacts RetryFacts RefreshFacts.

Lemma getRefreshInterval_pos (now : Time) (svid : SVID) :
  now < svid_Expiry svid -> 0 < getRefreshInterval now svid.
Proof.
  intros Hlt. rewrite getRefreshInterval_exact. unfold Until.
  pose proof (Sub_pos _ _ Hlt) as Hp.
  pose proof (Sub_range (svid_Expiry svid) now) as Hr.
  destruct (quot2_range _ Hr) as (_ & _ & Hq). specialize (Hq Hp).
  unfold Second. lia.
Qed.

Lemma inRange_pos (f : retryFunc) : inRange f -> 0 < f.
Proof. unfold inRange, initialBackoff, Second. lia. Qed.

Lemma NewTicker_pos (d : Duration) : 0 < d -> NewTicker d = Done d.
Proof. intros H. unfold NewTicker. destruct (Z.leb_spec d 0); [lia|reflexivity]. Qed.

Lemma ticker_Reset_pos (d : Duration) : 0 < d -> ticker_Reset d = Done d.
Proof. intros H. unfold ticker_Reset. destruct (Z.leb_spec d 0); [lia|reflexivity]. Qed.

Lemma updateFails_result (path_Join : string -> string -> string) (w : World)
    (fn : string) (env : JWTEnv) :
  match (performJWTSVIDUpdate path_Join w fn env).2 with
  | inl jwtSVIDs =>
      updateFails env = false
      /\ fetchJWTSVIDs env = inl jwtSVIDs /\ WriteJWTSVID_err env jwtSVIDs = None
  | inr _ => updateFails env = true
  end.
Proof.
  unfold performJWTSVIDUpdate, updateFails.
  destruct (fetchJWTSVIDs env) as [l|e]; [|reflexivity].
  destruct (WriteJWTSVID_err env l) eqn:Hw; simpl; auto.
Qed.

Section Loop.
Variable path_Join : string -> string -> string.
Variable fn : string.

(** The state a tick leaves behind, by the outcome of its update. *)
Lemma tick_cases (l : Loop) (env : JWTEnv) :
  inRange (retryInterval l) -> firstTokenValid env ->
  exists l', updateJWTSVID_tick path_Join l fn env = Done l'
    /\ 0 < ticker l'
    /\ inRange (retryInterval l')
    /\ (updateFails env = true ->
        ticker l' = retryInterval l
        /\ retryInterval l' = doubled_clamped (retryInterval l)).
Proof.
  intros Hr Hv. unfold updateJWTSVID_tick.
  pose proof (updateFails_result path_Join (world l) fn env) as Hres.
  destruct (performJWTSVIDUpdate path_Join (world l) fn env) as [w res].
  cbn [snd] in Hres. destruct res as [jwtSVIDs|e].
  - destruct Hres as (Hf & Hfetch & Hwr).
    destruct (Hv jwtSVIDs Hfetch Hwr) as (svid & rest & -> & Hexp).
    cbn [index0 bind].
    rewrite (ticker_Reset_pos _ (getRefreshInterval_pos _ _ Hexp)). cbn [bind].
    eexists. split; [reflexivity|]. cbn.
    split; [apply getRefreshInterval_pos, Hexp|].
    split; [apply create_inRange|]. congruence.
  - rewrite (call_inRange _ Hr).
    rewrite (ticker_Reset_pos _ (inRange_pos _ Hr)). cbn [bind].
    eexists. split; [reflexivity|]. cbn.
    split; [apply inRange_pos, Hr|].
    split; [apply doubled_clamped_inRange, Hr|]. auto.
Qed.

Lemma start_cases (w : World) (env : JWTEnv) :
  firstTokenValid env ->
  exists l, updateJWTSVID_start path_Join w fn env = Done l
    /\ 0 < ticker l
    /\ inRange (retryInterval l)
    /\ (updateFails env = true ->
        ticker l = initialBackoff /\ retryInterval l = doubled_clamped initialBackoff).
Proof.
  intros Hv. unfold updateJWTSVID_start.
  pose proof (updateFails_result path_Join w fn env) as Hres.
  destruct (performJWTSVIDUpdate path_Join w fn env) as [w' res].
  cbn [snd] in Hres. destruct res as [jwtSVIDs|e].
  - destruct Hres as (Hf & Hfetch & Hwr).
    destruct (Hv jwtSVIDs Hfetch Hwr) as (svid & rest & -> & Hexp).
    cbn [index0 bind].
    rewrite (NewTicker_pos _ (getRefreshInterval_pos _ _ Hexp)). cbn [bind].
    eexists. split; [reflexivity|]. cbn.
    split; [apply getRefreshInterval_pos, Hexp|].
    split; [apply create_inRange|]. congruence.
  - rewrite (call_inRange _ create_inRange).
    rewrite (NewTicker_pos _ (inRange_pos _ create_inRange)). cbn [bind].
    eexists. split; [reflexivity|]. cbn.
    split; [apply inRange_pos, create_inRange|].
    split; [apply doubled_clamped_inRange, create_inRange|]. auto.
Qed.

Lemma loop_safe (ticks : list JWTEnv) (l : Loop) :
  inRange (retryInterval l) -> Forall firstTokenValid ticks ->
  exists l' ds, updateJWTSVID_loop path_Join l fn ticks = Done (l', ds)
    /\ length ds = length ticks
    /\ Forall (fun d => 0 < d) ds
    /\ inRange (retryInterval l').
Proof.
  revert l. induction ticks as [|env ticks IH]; intros l Hr Hall.
  - exists l, []. split; [reflexivity|]. split; [reflexivity|].
    split; [constructor|exact Hr].
  - inversion Hall as [|? ? Hv Hrest]; subst.
    destruct (tick_cases l env Hr Hv) as (l1 & Ht & Hpos & Hr1 & _).
    destruct (IH l1 Hr1 Hrest) as (l' & ds & Hl & Hlen & Hds & Hr').
    exists l', (ticker l1 :: ds). cbn [updateJWTSVID_loop].
    rewrite Ht. cbn [bind]. rewrite Hl. cbn [bind].
    split; [reflexivity|]. split; [simpl; lia|].
    split; [constructor; assumption|exact Hr'].
Qed.

Lemma loop_failures (ticks : list JWTEnv) (l : Loop) :
  inRange (retryInterval l) ->
  Forall firstTokenValid ticks ->
  Forall (fun env => updateFails env = true) ticks ->
  exists l', updateJWTSVID_loop path_Join l fn ticks
             = Done (l', (calls (length ticks) (retryInterval l)).1)
    /\ retryInterval l' = (calls (length ticks) (retryInterval l)).2.
Proof.
  revert l. induction ticks as [|env ticks IH]; intros l Hr Hall Hfail.
  - exists l. split; reflexivity.
  - inversion Hall as [|? ? Hv Hrest]; subst.
    inversion Hfail as [|? ? Hf Hfrest]; subst.
    destruct (tick_cases l env Hr Hv) as (l1 & Ht & _ & Hr1 & Hcase).
    destruct (Hcase Hf) as [Htk Hnext].
    destruct (IH l1 Hr1 Hrest Hfrest) as (l' & Hl & Hfin).
    exists l'. cbn [updateJWTSVID_loop length calls].
    rewrite Ht. cbn [bind]. rewrite Hl. cbn [bind].
    rewrite (call_inRange _ Hr). rewrite Hnext in Hfin |- *. rewrite Htk.
    clear Hl.
    destruct (calls (length ticks) (doubled_clamped (retryInterval l))) as [ds f].
    split; [reflexivity|exact Hfin].
Qed.

End Loop.

End LoopFacts.

Module LoopSpec.
Import Cfg Time Retry Refresh Sidecar Invariant Modes RetryFacts LoopFacts.

(** X7: [updateJWTSVID] does not panic and arms only positive ticker
    periods, one for the first update and one per tick, as long as every
    successful update wrote a list that is not empty and whose first
    token has not expired yet. *)
Theorem updateJWTSVID_safe (path_Join : string -> string -> string) (w : World)
    (fn : string) (env : JWTEnv) (ticks : list JWTEnv) :
  firstTokenValid env -> Forall firstTokenValid ticks ->
  exists l ds,
    updateJWTSVID path_Join w fn env ticks = Done (l, ds)
    /\ length ds = S (length ticks)
    /\ Forall (fun d => 0 < d) ds.
Proof.
  intros Hv Hall. unfold updateJWTSVID.
  destruct (start_cases path_Join fn w env Hv) as (l0 & Hs & Hpos & Hr & _).
  destruct (loop_safe path_Join fn ticks l0 Hr Hall) as (l & ds & Hl & Hlen & Hds & _).
  exists l, (ticker l0 :: ds). rewrite Hs. cbn [bind]. rewrite Hl. cbn [bind].
  split; [reflexivity|]. split; [simpl; lia|constructor; assumption].
Qed.

Lemma jwtOK_valid : firstTokenValid Scenario.jwtOK.
Proof.
  intros l Hf _. injection Hf as <-. eexists _, _. split; reflexivity.
Defined.

Lemma jwtFetchFails_valid : firstTokenValid Scenario.jwtFetchFails.
Proof. intros l Hf. discriminate. Defined.

Lemma updateJWTSVID_safe_witness :
  exists l ds,
    updateJWTSVID Scenario.join (New Scenario.join Scenario.emptyHeap Scenario.cfgJWT)
      "jwt_svid.token" Scenario.jwtFetchFails [Scenario.jwtOK] = Done (l, ds)
    /\ length ds = 2%nat
    /\ Forall (fun d => 0 < d) ds.
Proof.
  apply (updateJWTSVID_safe Scenario.join _ "jwt_svid.token" Scenario.jwtFetchFails
           [Scenario.jwtOK]).
  - exact jwtFetchFails_valid.
  - constructor; [exact jwtOK_valid|constructor].
Defined.

(** X8: When the first update and every update after it fail, the periods
    [updateJWTSVID] arms are the values its retry generator returns, call
    after call: 1s, 2s, 4s, 8s, 16s, 32s, then 60s for good. *)
Theorem updateJWTSVID_failure_streak (path_Join : string -> string -> string) (w : World)
    (fn : string) (env : JWTEnv) (ticks : list JWTEnv) :
  Forall (fun env => updateFails env = true) (env :: ticks) ->
  exists l,
    updateJWTSVID path_Join w fn env ticks
    = Done (l, (calls (S (length ticks)) createRetryIntervalFunc).1).
Proof.
  intros Hfail. inversion Hfail as [|? ? Hf Hfrest]; subst.
  assert (Hvalid : forall e, updateFails e = true -> firstTokenValid e).
  { intros e He l Hfetch Hwr. unfold updateFails in He. rewrite Hfetch, Hwr in He.
    discriminate. }
  assert (Hall : Forall firstTokenValid ticks)
    by (eapply Forall_impl; [exact Hfrest|]; exact Hvalid).
  unfold updateJWTSVID.
  destruct (start_cases path_Join fn w env (Hvalid _ Hf)) as (l0 & Hs & _ & Hr & Hcase).
  destruct (Hcase Hf) as [Htk Hnext].
  destruct (loop_failures path_Join fn ticks l0 Hr Hall Hfrest) as (l & Hl & _).
  exists l. rewrite Hs. cbn [bind]. rewrite Hl. cbn [bind calls].
  rewrite (call_inRange _ create_inRange). rewrite Hnext, Htk.
  unfold createRetryIntervalFunc. clear Hl.
  destruct (calls (length ticks) (doubled_clamped initialBackoff)) as [ds f]. reflexivity.
Qed.

Lemma updateJWTSVID_failure_streak_witness :
  exists l,
    updateJWTSVID Scenario.join (New Scenario.join Scenario.emptyHeap Scenario.cfgJWT)
      "jwt_svid.token" Scenario.jwtFetchFails
      [Scenario.jwtFetchFails; Scenario.jwtNoneRefused]
    = Done (l, [1 * Second; 2 * Second; 4 * Second]).
Proof.
  apply (updateJWTSVID_failure_streak Scenario.join _ "jwt_svid.token"
           Scenario.jwtFetchFails [Scenario.jwtFetchFails; Scenario.jwtNoneRefused]).
  repeat constructor.
Defined.

End LoopSpec.

(* ===================================================================== *)
(** * More on the child process                                           *)
(* ===================================================================== *)

Module ProcessMore.
Import Cfg Time Retry Refresh Sidecar Invariant Modes HealthFacts TransitionFacts ProcessFacts.

Lemma signalProcess_processOK (s : Sidecar.Sidecar) (env : ProcEnv) :
  processOK s ->
  processOK (signalProcess s env).1.1
  /\ forall target sig, EvSignal target sig ∈ (signalProcess s env).2 -> is_Some target.
Proof.
  intros Hs. unfold signalProcess.
  destruct (processRunning s) eqn:Hr; simpl.
  - assert (Hsig : forall target sig,
               EvSignal target sig ∈ [EvSignal (process s) (RenewSignal (config s))] ->
               is_Some target).
    { intros target sig Hin. apply list_elem_of_singleton in Hin.
      injection Hin as -> _. apply Hs, Hr. }
    destruct (SignalProcess_err env); simpl; (split; [exact Hs|exact Hsig]).
  - destruct (Args.getCmdArgs _); [destruct (cmd_Start env)|]; simpl; split;
      try exact Hs; try (intros _; eexists; reflexivity);
      intros target sig Hin; rewrite ?elem_of_cons, ?elem_of_nil in Hin;
      intuition discriminate.
Qed.

Lemma updateCertificates_processOK (w : World) (env : X509Env) :
  processOK (sidecar w) ->
  processOK (sidecar (updateCertificates w env).1)
  /\ forall target sig, EvSignal target sig ∈ (updateCertificates w env).2 -> is_Some target.
Proof.
  intros Hs. unfold updateCertificates.
  destruct (WriteX509Context_err env).
  - split; [exact Hs|]. intros target sig Hin. inversion Hin.
  - set (w1 := setX509WriteStatus w writeStatusWritten).
    assert (H1 : processOK (sidecar w1)) by exact Hs.
    destruct (nonempty (Cmd (config (sidecar w1)))).
    + destruct (signalProcess_processOK (sidecar w1) (x509_proc env) H1) as [Hok Hsig].
      destruct (signalProcess (sidecar w1) (x509_proc env)) as [[s e] ev]. simpl in *.
      split; [exact Hok|]. intros target sig Hin.
      repeat (apply elem_of_app in Hin as [Hin|Hin]); [eapply Hsig, Hin| | |].
      * destruct (nonempty _); [apply list_elem_of_singleton in Hin; discriminate|inversion Hin].
      * destruct (ReloadExternalProcess _);
          [apply list_elem_of_singleton in Hin; discriminate|inversion Hin].
      * apply list_elem_of_singleton in Hin. discriminate.
    + simpl. split; [exact H1|]. intros target sig Hin.
      repeat (apply elem_of_app in Hin as [Hin|Hin]).
      * destruct (nonempty _); [apply list_elem_of_singleton in Hin; discriminate|inversion Hin].
      * destruct (ReloadExternalProcess _);
          [apply list_elem_of_singleton in Hin; discriminate|inversion Hin].
      * apply list_elem_of_singleton in Hin. discriminate.
Qed.

Lemma apply_processOK (path_Join : string -> string -> string) (w : World) (op : Op) :
  processOK (sidecar w) -> processOK (sidecar (apply path_Join w op)).
Proof.
  intros Hs. destruct op as [env|err|fn env|]; simpl.
  - apply updateCertificates_processOK, Hs.
  - unfold OnJWTBundlesUpdate. destruct err; exact Hs.
  - unfold performJWTSVIDUpdate. destruct (fetchJWTSVIDs env); [|exact Hs].
    destruct (WriteJWTSVID_err env _); exact Hs.
  - intros Hr. discriminate.
Qed.

Lemma run_processOK (path_Join : string -> string -> string) (w : World) (ops : list Op) :
  processOK (sidecar w) -> processOK (sidecar (run path_Join w ops)).
Proof.
  revert w. induction ops as [|op ops IH]; intros w Hw; [exact Hw|].
  simpl. apply IH, apply_processOK, Hw.
Qed.

Lemma New_processRunning (path_Join : string -> string -> string) (h : Heap) (cfg : Config) :
  processRunning (sidecar (New path_Join h cfg)) = false.
Proof.
  unfold New, makeMap, setupHealth. cbn [config sidecar].
  match goal with
  | |- context [fold_left ?f ?l ?w0] =>
      destruct (fold_setJWT path_Join (fun _ => True)
                  (fun jwtConfig => path_Join (CertDir cfg) (JWTSVIDFilename jwtConfig))
                  writeStatusUnwritten l w0) as (Hs & _)
  end.
  rewrite Hs. destruct (x509Enabled cfg), (jwtBundleEnabled cfg); reflexivity.
Qed.

(** X9: However X.509 updates, JWT updates and exits of the child follow
    each other after [New], a sidecar that marks a child running holds
    its handle, and the renewal signal of an X.509 update is never sent
    to a nil process. *)
Theorem signal_target_never_nil (path_Join : string -> string -> string)
    (h : Heap) (cfg : Config) (ops : list Op) (env : X509Env) :
  let w := run path_Join (New path_Join h cfg) ops in
  (processRunning (sidecar w) = true -> is_Some (process (sidecar w)))
  /\ (forall target sig,
        EvSignal target sig ∈ (updateCertificates w env).2 -> is_Some target).
Proof.
  cbv zeta.
  assert (Hw : processOK (sidecar (run path_Join (New path_Join h cfg) ops))).
  { apply run_processOK. intros Hr. rewrite New_processRunning in Hr. discriminate. }
  split; [exact Hw|]. apply updateCertificates_processOK, Hw.
Qed.

Lemma signal_target_never_nil_witness :
  is_Some (process (sidecar (run Scenario.join
                               (New Scenario.join Scenario.emptyHeap Scenario.cfgX509)
                               [OpX509Update Scenario.x509OK]))).
Proof.
  apply (signal_target_never_nil Scenario.join Scenario.emptyHeap Scenario.cfgX509
           [OpX509Update Scenario.x509OK] Scenario.x509OK).
  reflexivity.
Defined.

(** A start that fails leaves the sidecar as it was. *)
Lemma signalProcess_start_failure (s : Sidecar.Sidecar) (env : ProcEnv) (e : error) :
  processRunning s = false -> cmd_Start env = inr e ->
  (signalProcess s env).1.1 = s
  /\ is_Some (signalProcess s env).1.2
  /\ spawned (signalProcess s env).2 = []
  /\ signalled (signalProcess s env).2 = [].
Proof.
  intros Hr He. unfold signalProcess. rewrite Hr, He. simpl.
  destruct (Args.getCmdArgs _); simpl; repeat split; eauto.
Qed.

Lemma schedule_start_failures (s : Sidecar.Sidecar) (envs : list ProcEnv) :
  processRunning s = false ->
  Forall (fun env => exists e, cmd_Start env = inr e) envs ->
  (schedule s (ActSignalProcess <$> envs)).1 = s
  /\ spawned (schedule s (ActSignalProcess <$> envs)).2 = []
  /\ signalled (schedule s (ActSignalProcess <$> envs)).2 = [].
Proof.
  intros Hr. induction 1 as [|env envs [e He] _ IH]; [repeat split|].
  cbn [fmap list_fmap schedule act].
  destruct (signalProcess_start_failure s env e Hr He) as (Hs & _ & Hsp & Hsg).
  destruct (signalProcess s env) as [[s1 err] ev]. simpl in Hs, Hsp, Hsg. subst s1.
  change (list_fmap _ _ ActSignalProcess envs) with (ActSignalProcess <$> envs).
  destruct IH as (IHs & IHsp & IHsg).
  destruct (schedule s (ActSignalProcess <$> envs)) as [s2 evs]. simpl in *.
  rewrite spawned_app, signalled_app, Hsp, Hsg, IHsp, IHsg. repeat split. exact IHs.
Qed.

(** X10: Failed starts are retried: after any number of invocations whose
    start fails, no child is marked running and nothing was signalled,
    and the first invocation whose start succeeds starts the one
    child. *)
Theorem failed_starts_are_retried (s : Sidecar.Sidecar) (envs : list ProcEnv)
    (env : ProcEnv) (cmdArgs : list string) (child : Process) :
  processRunning s = false ->
  Args.getCmdArgs (CmdArgs (config s)) = inl cmdArgs ->
  Forall (fun env => exists e, cmd_Start env = inr e) envs ->
  cmd_Start env = inl child ->
  let r := schedule s (ActSignalProcess <$> (envs ++ [env])) in
  spawned r.2 = [child]
  /\ signalled r.2 = []
  /\ processRunning r.1 = true
  /\ process r.1 = Some child.
Proof.
  intros Hr Ha Hfail Hok. cbv zeta. rewrite fmap_app, schedule_app.
  destruct (schedule_start_failures s envs Hr Hfail) as (Hs & Hsp & Hsg).
  destruct (schedule s (ActSignalProcess <$> envs)) as [s1 ev1]. simpl in Hs, Hsp, Hsg.
  subst s1. cbn [fmap list_fmap schedule act].
  rewrite (signalProcess_spawns s env cmdArgs child Hr Ha Hok). cbn [fst snd].
  rewrite spawned_app, signalled_app, Hsp, Hsg. repeat split.
Qed.

Lemma failed_starts_are_retried_witness :
  spawned (schedule (sidecar (New Scenario.join Scenario.emptyHeap Scenario.cfgX509))
             (ActSignalProcess <$> ([Scenario.procFails; Scenario.procFails]
                                    ++ [Scenario.procOK 4242]))).2 = [4242].
Proof.
  apply (failed_starts_are_retried
           (sidecar (New Scenario.join Scenario.emptyHeap Scenario.cfgX509))
           [Scenario.procFails; Scenario.procFails] (Scenario.procOK 4242)
           ["-s"; "reload"] 4242 eq_refl eq_refl).
  - repeat constructor; eexists; reflexivity.
  - reflexivity.
Defined.

End ProcessMore.

(* ===================================================================== *)
(** * The reaper goroutines                                               *)
(* ===================================================================== *)

Module ReaperFacts.
Import Cfg Sidecar Modes ProcessFacts.

Lemma not_running_finished (s : Sidecar.Sidecar) (r : reaper) :
  processRunning s = false -> reaperOK s r -> r = Finished.
Proof.
  intros Hr. destruct r as [c|c p|]; simpl; [| |reflexivity].
  - intros [H _]. congruence.
  - intros [H _]. congruence.
Qed.

Lemma launched_cases (s : Sidecar.Sidecar) (env : ProcEnv) :
  ((signalProcess s env).1.1 = s /\ launched (signalProcess s env).2 = [])
  \/ (processRunning s = false
      /\ exists child,
           processRunning (signalProcess s env).1.1 = true
           /\ process (signalProcess s env).1.1 = Some child
           /\ launched (signalProcess s env).2 = [Started child]).
Proof.
  unfold signalProcess. destruct (processRunning s) eqn:Hr; simpl.
  - left. destruct (SignalProcess_err env); split; reflexivity.
  - destruct (Args.getCmdArgs _); [destruct (cmd_Start env) as [child|e]|].
    + right. split; [reflexivity|]. exists child. repeat split.
    + left. split; reflexivity.
    + left. split; reflexivity.
Qed.

Lemma gstep_ok (sys : Sys) (a : GAction) : sysOK sys -> stepOK a (gstep sys a).
Proof.
  intros [Ha Hb]. destruct a as [env|i|i state]; cbn [gstep].
  - destruct (launched_cases (sys_sidecar sys) env) as [[Hs Hl]|(Hr & child & Hr' & Hp & Hl)];
      destruct (signalProcess (sys_sidecar sys) env) as [[s e] evs]; cbn [fst snd] in *;
      cbn [stepOK].
    + subst s. rewrite Hl, app_nil_r. split; assumption.
    + rewrite Hl.
      assert (Hfin : forall j r, sys_reapers sys !! j = Some r -> r = Finished).
      { intros j r Hj. eapply not_running_finished; [exact Hr|]. eapply Ha, Hj. }
      split; cbn [sys_sidecar sys_reapers].
      * intros j r Hj. apply lookup_app_Some in Hj as [Hj|[_ Hj]].
        -- rewrite (Hfin j r Hj). exact I.
        -- apply list_lookup_singleton_Some in Hj as [_ <-]. split; assumption.
      * intros j k rj rk Hj Hk Hnj Hnk.
        apply lookup_app_Some in Hj as [Hj|[Hlj Hj]]; [apply Hfin in Hj; contradiction|].
        apply lookup_app_Some in Hk as [Hk|[Hlk Hk]]; [apply Hfin in Hk; contradiction|].
        apply list_lookup_singleton_Some in Hj as [Hj _].
        apply list_lookup_singleton_Some in Hk as [Hk _]. lia.
  - destruct (sys_reapers sys !! i) as [[child|child proc|]|] eqn:Hi;
      try (cbn [stepOK]; split; assumption).
    destruct (Ha i _ Hi) as [Hr Hp].
    unfold checkProcessExit_enter. rewrite Hr. cbn [negb bind stepOK].
    split; cbn [sys_sidecar sys_reapers].
    + intros j r Hj. apply list_lookup_insert_Some in Hj as [(<- & <- & _)|[Hne Hj]].
      * repeat split; assumption.
      * eapply Ha, Hj.
    + intros j k rj rk Hj Hk Hnj Hnk.
      assert (Hone : forall m r, <[i:=Waiting child (process (sys_sidecar sys))]>
                                  (sys_reapers sys) !! m = Some r ->
                                 r <> Finished -> m = i).
      { intros m r Hm Hnm. apply list_lookup_insert_Some in Hm as [(<- & _)|[Hne Hm]];
          [reflexivity|]. apply (Hb m i r (Started child) Hm Hi Hnm). discriminate. }
      rewrite (Hone j rj Hj Hnj), (Hone k rk Hk Hnk). reflexivity.
  - destruct (sys_reapers sys !! i) as [[child|child proc|]|] eqn:Hi;
      try (cbn [stepOK]; split; assumption).
    destruct state as [st|]; cbn [stepOK]; [|split; [reflexivity|eauto]].
    assert (Hfin : forall m r, <[i:=Finished]> (sys_reapers sys) !! m = Some r ->
                               r = Finished).
    { intros m r Hm. apply list_lookup_insert_Some in Hm as [(_ & <- & _)|[Hne Hm]];
        [reflexivity|].
      destruct r as [c|c p|]; [| |reflexivity]; exfalso; apply Hne; symmetry;
        eapply (Hb m i _ _ Hm Hi); discriminate. }
    split; cbn [sys_sidecar sys_reapers].
    + intros j r Hj. rewrite (Hfin j r Hj). exact I.
    + intros j k rj rk Hj Hk Hnj. apply Hfin in Hj. contradiction.
Qed.

Lemma grun_ok (acts : list GAction) (sys : Sys) :
  sysOK sys ->
  match grun sys acts with
  | Done sys' => sysOK sys'
  | Panicked msg => msg = nilDereference /\ exists i, GReaperLeave i None ∈ acts
  end.
Proof.
  revert sys. induction acts as [|a acts IH]; intros sys Hok; [exact Hok|].
  cbn [grun]. pose proof (gstep_ok sys a Hok) as Hstep.
  destruct (gstep sys a) as [sys1|msg]; cbn [bind stepOK] in *.
  - specialize (IH sys1 Hstep). destruct (grun sys1 acts) as [sys'|msg]; [exact IH|].
    destruct IH as [Hm [i Hi]]. split; [exact Hm|]. exists i. right. exact Hi.
  - destruct Hstep as [Hm [i ->]]. split; [exact Hm|]. exists i. left.
Qed.

End ReaperFacts.

Module ReaperSpec.
Import Cfg Sidecar Modes ReaperFacts.

(** X11: In whatever order invocations of [signalProcess] and the critical
    sections of the reaper goroutines get the mutex, starting with no
    child marked running, the panic of [checkProcessExit] for a missing
    process is never reached: the run goes on, with at most one reaper
    that has not finished and every waiting reaper waiting on the child
    whose start launched it, unless a [proc.Wait()] failed and its nil
    state was dereferenced for the [cmdExit] hook. *)
Theorem checkProcessExit_never_without_process (s : Sidecar.Sidecar)
    (acts : list GAction) :
  processRunning s = false ->
  match grun (mkSys s []) acts with
  | Done sys =>
      (forall i child proc,
         sys_reapers sys !! i = Some (Waiting child proc) -> proc = Some child)
      /\ (forall i j ri rj,
            sys_reapers sys !! i = Some ri -> sys_reapers sys !! j = Some rj ->
            ri <> Finished -> rj <> Finished -> i = j)
  | Panicked msg => msg = nilDereference /\ exists i, GReaperLeave i None ∈ acts
  end.
Proof.
  intros Hr.
  assert (H0 : sysOK (mkSys s [])).
  { split; cbn [sys_reapers].
    - intros i r Hi. rewrite lookup_nil in Hi. discriminate.
    - intros i j ri rj Hi. rewrite lookup_nil in Hi. discriminate. }
  pose proof (grun_ok acts _ H0) as Hrun.
  destruct (grun (mkSys s []) acts) as [sys|msg]; [|exact Hrun].
  destruct Hrun as [Ha Hb]. split; [|exact Hb].
  intros i child proc Hi. apply (Ha i _ Hi).
Qed.

(** A start, the reaper reads the handle, a second invocation signals,
    the child exits, a third invocation starts a second child whose
    reaper reads the new handle. *)
Lemma checkProcessExit_never_without_process_witness :
  exists sys,
    grun (mkSys (sidecar (New Scenario.join Scenario.emptyHeap Scenario.cfgX509)) [])
      [GSignalProcess (Scenario.procOK 4242); GReaperEnter 0;
       GSignalProcess (Scenario.procOK 4243); GReaperLeave 0 (Some 0);
       GSignalProcess (Scenario.procOK 4244); GReaperEnter 1] = Done sys
    /\ forall i child proc,
         sys_reapers sys !! i = Some (Waiting child proc) -> proc = Some child.
Proof.
  pose proof (checkProcessExit_never_without_process
                (sidecar (New Scenario.join Scenario.emptyHeap Scenario.cfgX509))
                [GSignalProcess (Scenario.procOK 4242); GReaperEnter 0;
                 GSignalProcess (Scenario.procOK 4243); GReaperLeave 0 (Some 0);
                 GSignalProcess (Scenario.procOK 4244); GReaperEnter 1] eq_refl) as H.
  destruct (grun _ _) as [sys|msg] eqn:Hrun.
  - exists sys. split; [reflexivity|exact (proj1 H)].
  - exfalso. vm_compute in Hrun. discriminate.
Defined.

Example reapers_after_respawn :
  grun (mkSys (sidecar (New Scenario.join Scenario.emptyHeap Scenario.cfgX509)) [])
    [GSignalProcess (Scenario.procOK 4242); GReaperEnter 0;
     GSignalProcess (Scenario.procOK 4243); GReaperLeave 0 (Some 0);
     GSignalProcess (Scenario.procOK 4244); GReaperEnter 1]
  = Done (mkSys
            (mkSidecar Scenario.cfgX509 true (Some 4244)
               (health (sidecar (New Scenario.join Scenario.emptyHeap Scenario.cfgX509))))
            [Finished; Waiting 4244 (Some 4244)]).
Proof. vm_compute. reflexivity. Qed.

End ReaperSpec.

(* ===================================================================== *)
(** * Package config                                                      *)
(* ===================================================================== *)

Module ConfigFacts.
Import FileConfig DurationFacts.

Lemma countEmpty_from (configs : list string) (cnt : Z) :
  0 <= cnt -> cnt + Z.of_nat (length configs) <= maxInt64 ->
  fold_left
    (fun cnt config => if String.eqb config EmptyString then int64_add cnt 1 else cnt)
    configs cnt
  = cnt + Z.of_nat (length (filter (fun s => isEmpty s = true) configs)).
Proof.
  revert cnt. induction configs as [|config configs IH]; intros cnt H0 Hmax.
  - simpl. lia.
  - cbn [fold_left]. rewrite filter_cons. cbn [length] in Hmax.
    destruct (decide (isEmpty config = true)) as [He|He]; unfold isEmpty in He.
    + rewrite He. unfold int64_add.
      rewrite wrap64_id by (unfold minInt64, maxInt64 in *; lia).
      rewrite IH by lia. cbn [length]. lia.
    + apply not_true_is_false in He. rewrite He. apply IH; lia.
Qed.

Lemma filter_length_zero {A : Type} (P : A -> Prop) `{forall x, Decision (P x)} (l : list A) :
  length (filter P l) = 0%nat <-> Forall (fun x => ~ P x) l.
Proof.
  induction l as [|x l IH]; [split; [constructor|reflexivity]|].
  rewrite filter_cons. destruct (decide (P x)) as [Hp|Hn]; simpl.
  - split; [discriminate|]. intros Hall. inversion Hall; contradiction.
  - rewrite IH. split; [intros Hl; constructor; assumption|].
    intros Hall. inversion Hall; assumption.
Qed.

Lemma filter_length_all {A : Type} (P : A -> Prop) `{forall x, Decision (P x)} (l : list A) :
  length (filter P l) = length l <-> Forall P l.
Proof.
  induction l as [|x l IH]; [split; [constructor|reflexivity]|].
  rewrite filter_cons. pose proof (length_filter P l) as Hle.
  destruct (decide (P x)) as [Hp|Hn]; simpl.
  - split.
    + intros Hl. constructor; [exact Hp|]. apply IH. lia.
    + intros Hall. inversion Hall; subst. f_equal. apply IH. assumption.
  - split; [lia|]. intros Hall. inversion Hall; contradiction.
Qed.

End ConfigFacts.

Module ConfigSpec.
Import FileConfig ConfigFacts.

(** X12: [countEmpty] returns the number of empty strings among its
    arguments: between zero and their number, zero exactly when none is
    empty, their number exactly when all are. *)
Theorem countEmpty_spec (configs : list string) :
  Z.of_nat (length configs) <= maxInt64 ->
  countEmpty configs = Z.of_nat (length (filter (fun s => isEmpty s = true) configs))
  /\ 0 <= countEmpty configs <= Z.of_nat (length configs)
  /\ (countEmpty configs = 0 <-> Forall (fun s => s <> EmptyString) configs)
  /\ (countEmpty configs = Z.of_nat (length configs) <->
      Forall (fun s => s = EmptyString) configs).
Proof.
  intros Hmax. unfold countEmpty. rewrite countEmpty_from by lia. rewrite Z.add_0_l.
  pose proof (length_filter (fun s => isEmpty s = true) configs) as Hle.
  split; [reflexivity|]. split; [lia|]. split.
  - rewrite <- Nat2Z.inj_0, Nat2Z.inj_iff, filter_length_zero.
    apply Forall_iff. intros s. unfold isEmpty.
    destruct (String.eqb_spec s EmptyString); split; congruence.
  - rewrite Nat2Z.inj_iff, filter_length_all.
    apply Forall_iff. intros s. unfold isEmpty.
    destruct (String.eqb_spec s EmptyString); split; congruence.
Qed.

Lemma countEmpty_witness : countEmpty ["svid.pem"; ""; "key.pem"] = 1.
Proof.
  rewrite (proj1 (countEmpty_spec ["svid.pem"; ""; "key.pem"] ltac:(vm_compute; discriminate))).
  reflexivity.
Defined.

Lemma NewSidecarConfig_loop (l : list JWTConfig) (acc : Cfg.Config) :
  let convert := fun jwtSVID =>
    Cfg.mkJWTConfig (JWTAudience jwtSVID) (JWTExtraAudiences jwtSVID)
      (JWTSVIDFilename jwtSVID) in
  fold_left
    (fun sidecarConfig jwtSVID =>
       Cfg.mkConfig (Cfg.Cmd sidecarConfig) (Cfg.CmdArgs sidecarConfig)
         (Cfg.PIDFilename sidecarConfig) (Cfg.CertDir sidecarConfig)
         (Cfg.RenewSignal sidecarConfig) (Cfg.SVIDFilename sidecarConfig)
         (Cfg.SVIDKeyFilename sidecarConfig) (Cfg.SVIDBundleFilename sidecarConfig)
         (Cfg.JWTSVIDs sidecarConfig ++ [convert jwtSVID])
         (Cfg.JWTBundleFilename sidecarConfig) (Cfg.ParallelRequests sidecarConfig)
         (Cfg.Hint sidecarConfig) (Cfg.ReloadExternalProcess sidecarConfig))
    l acc
  = Cfg.mkConfig (Cfg.Cmd acc) (Cfg.CmdArgs acc) (Cfg.PIDFilename acc) (Cfg.CertDir acc)
      (Cfg.RenewSignal acc) (Cfg.SVIDFilename acc) (Cfg.SVIDKeyFilename acc)
      (Cfg.SVIDBundleFilename acc) (Cfg.JWTSVIDs acc ++ (convert <$> l))
      (Cfg.JWTBundleFilename acc) (Cfg.ParallelRequests acc) (Cfg.Hint acc)
      (Cfg.ReloadExternalProcess acc).
Proof.
  cbv zeta. revert acc. induction l as [|j l IH]; intros acc.
  - simpl. rewrite app_nil_r. destruct acc; reflexivity.
  - cbn [fold_left]. rewrite IH. cbn. rewrite <- app_assoc. reflexivity.
Qed.

Lemma NewSidecarConfig_eq (c : Config) :
  NewSidecarConfig c
  = Cfg.mkConfig (Cmd c) (CmdArgs c) (PIDFilename c) (CertDir c) (RenewSignal c)
      (SVIDFilename c) (SVIDKeyFilename c) (SVIDBundleFilename c)
      ((fun jwtSVID =>
          Cfg.mkJWTConfig (JWTAudience jwtSVID) (JWTExtraAudiences jwtSVID)
            (JWTSVIDFilename jwtSVID)) <$> JWTSVIDs c)
      (JWTBundleFilename c) (ParallelRequests c) (Hint c) false.
Proof. unfold NewSidecarConfig. rewrite NewSidecarConfig_loop. reflexivity. Qed.

(** X13: The checks of the file configuration agree with the sidecar made
    from it: [validateX509Config] accepts exactly the configurations
    that give all three X.509 names or none, its answer is then what
    [x509Enabled] says of the sidecar configuration, and a configuration
    it refuses has X.509 disabled in the sidecar; [validateJWTConfig]
    answers what [jwtBundleEnabled] and [jwtSVIDsEnabled] say. *)
Theorem validate_agrees_with_sidecar (c : Config) :
  let sc := NewSidecarConfig c in
  ((validateX509Config c).2 = None <->
   (SVIDFilename c = EmptyString /\ SVIDKeyFilename c = EmptyString
    /\ SVIDBundleFilename c = EmptyString)
   \/ (SVIDFilename c <> EmptyString /\ SVIDKeyFilename c <> EmptyString
       /\ SVIDBundleFilename c <> EmptyString))
  /\ ((validateX509Config c).2 = None -> (validateX509Config c).1 = Cfg.x509Enabled sc)
  /\ ((validateX509Config c).2 <> None ->
      (validateX509Config c).1 = false /\ Cfg.x509Enabled sc = false)
  /\ validateJWTConfig c = (Cfg.jwtBundleEnabled sc, Cfg.jwtSVIDsEnabled sc).
Proof.
  cbv zeta. rewrite NewSidecarConfig_eq.
  unfold validateX509Config, validateJWTConfig, countEmpty,
    Cfg.x509Enabled, Cfg.jwtBundleEnabled, Cfg.jwtSVIDsEnabled, Cfg.nonempty.
  cbn [fold_left Cfg.SVIDFilename Cfg.SVIDKeyFilename Cfg.SVIDBundleFilename
       Cfg.JWTBundleFilename Cfg.JWTSVIDs].
  rewrite length_fmap.
  destruct (String.eqb_spec (SVIDFilename c) EmptyString) as [H1|H1];
    destruct (String.eqb_spec (SVIDBundleFilename c) EmptyString) as [H2|H2];
    destruct (String.eqb_spec (SVIDKeyFilename c) EmptyString) as [H3|H3];
    destruct (String.eqb (JWTBundleFilename c) EmptyString);
    cbn; (split; [split; [try discriminate; tauto|tauto]|]);
    (split; [try discriminate; try reflexivity|]);
    (split; [try (intros Hn; exfalso; apply Hn; reflexivity); try (split; reflexivity)
            |reflexivity]).
Qed.

Lemma validate_agrees_with_sidecar_witness :
  (validateX509Config
     (mkConfig false "/tmp/agent.sock" "" "" "" "/certs" 420 384 384 384 false "SIGHUP"
        None "" 0 "svid.pem" "" "" [] "")).1 = false
  /\ Cfg.x509Enabled
       (NewSidecarConfig
          (mkConfig false "/tmp/agent.sock" "" "" "" "/certs" 420 384 384 384 false "SIGHUP"
             None "" 0 "svid.pem" "" "" [] "")) = false.
Proof.
  apply (validate_agrees_with_sidecar
           (mkConfig false "/tmp/agent.sock" "" "" "" "/certs" 420 384 384 384 false "SIGHUP"
              None "" 0 "svid.pem" "" "" [] "")).
  discriminate.
Defined.

End ConfigSpec.

Module ConfigSidecar.
Import Sidecar Invariant Modes HealthFacts TransitionFacts HealthMore FileConfig ConfigSpec.

Lemma signalProcess_no_reload (s : Sidecar.Sidecar) (env : ProcEnv) :
  EvReload ∉ (signalProcess s env).2.
Proof.
  unfold signalProcess.
  destruct (negb (processRunning s)).
  - destruct (Args.getCmdArgs _); [destruct (cmd_Start env)|]; simpl;
      rewrite ?elem_of_cons, ?elem_of_nil; intuition discriminate.
  - destruct (SignalProcess_err env); simpl;
      rewrite ?elem_of_cons, ?elem_of_nil; intuition discriminate.
Qed.

Lemma updateCertificates_reload (w : World) (env : X509Env) :
  EvReload ∈ (updateCertificates w env).2 ->
  Cfg.ReloadExternalProcess (config (sidecar w)) = true.
Proof.
  unfold updateCertificates.
  destruct (WriteX509Context_err env); [intros H; inversion H|].
  set (w1 := setX509WriteStatus w writeStatusWritten).
  change (config (sidecar w)) with (config (sidecar w1)).
  destruct (Cfg.nonempty (Cfg.Cmd (config (sidecar w1)))).
  - pose proof (signalProcess_no_reload (sidecar w1) (x509_proc env)) as Hno.
    pose proof (signalProcess_health (sidecar w1) (x509_proc env)) as [Hc _].
    destruct (signalProcess (sidecar w1) (x509_proc env)) as [[s e] ev]. simpl in *.
    rewrite <- Hc. intros Hin.
    repeat (apply elem_of_app in Hin as [Hin|Hin]); [contradiction| | |].
    + destruct (Cfg.nonempty _); [apply list_elem_of_singleton in Hin; discriminate|inversion Hin].
    + destruct (Cfg.ReloadExternalProcess _); [reflexivity|inversion Hin].
    + apply list_elem_of_singleton in Hin. discriminate.
  - simpl. intros Hin.
    repeat (apply elem_of_app in Hin as [Hin|Hin]).
    + destruct (Cfg.nonempty _); [apply list_elem_of_singleton in Hin; discriminate|inversion Hin].
    + destruct (Cfg.ReloadExternalProcess _); [reflexivity|inversion Hin].
    + apply list_elem_of_singleton in Hin. discriminate.
Qed.

(** X14: The sidecar made from a file configuration: [NewSidecarConfig] keeps
    the JWT SVID entries, one for one and in order; [New] then tracks the
    file of each of them as Unwritten; and since [NewSidecarConfig] sets
    no reload hook, no X.509 update of that sidecar ever calls one. *)
Theorem sidecar_of_file_config (path_Join : string -> string -> string)
    (h : Heap) (c : Config) :
  let sc := NewSidecarConfig c in
  Cfg.JWTSVIDFilename <$> Cfg.JWTSVIDs sc = JWTSVIDFilename <$> JWTSVIDs c
  /\ (forall jwtSVID, jwtSVID ∈ JWTSVIDs c ->
        status (New path_Join h sc)
          (ResJWT (path_Join (CertDir c) (JWTSVIDFilename jwtSVID)))
        = Some writeStatusUnwritten)
  /\ (forall ops env,
        EvReload ∉ (updateCertificates (run path_Join (New path_Join h sc) ops) env).2).
Proof.
  cbv zeta. split; [|split].
  - rewrite NewSidecarConfig_eq. cbn [Cfg.JWTSVIDs].
    rewrite <- list_fmap_compose. reflexivity.
  - intros j Hj. apply New_status_configured. right.
    exists (Cfg.mkJWTConfig (JWTAudience j) (JWTExtraAudiences j) (JWTSVIDFilename j)).
    rewrite NewSidecarConfig_eq. cbn [Cfg.JWTSVIDs Cfg.CertDir Cfg.JWTSVIDFilename].
    split; [|reflexivity]. apply list_elem_of_fmap. exists j. split; [reflexivity|exact Hj].
  - intros ops env Hin. apply updateCertificates_reload in Hin.
    assert (Hw : wf (NewSidecarConfig c)
                   (run path_Join (New path_Join h (NewSidecarConfig c)) ops))
      by apply run_wf, New_wf.
    rewrite (wf_config _ _ Hw), NewSidecarConfig_eq in Hin. discriminate.
Qed.

Lemma sidecar_of_file_config_witness :
  status (New Scenario.join Scenario.emptyHeap
            (NewSidecarConfig
               (mkConfig false "/tmp/agent.sock" "" "" "" "/certs" 420 384 384 384 false
                  "SIGHUP" None "" 0 "" "" ""
                  [mkJWTConfig "backend" [] "backend.token";
                   mkJWTConfig "frontend" ["cdn"] "frontend.token"] "")))
    (ResJWT "/certs/frontend.token") = Some writeStatusUnwritten.
Proof.
  apply (proj1 (proj2 (sidecar_of_file_config Scenario.join Scenario.emptyHeap
                         (mkConfig false "/tmp/agent.sock" "" "" "" "/certs" 420 384 384 384
                            false "SIGHUP" None "" 0 "" "" ""
                            [mkJWTConfig "backend" [] "backend.token";
                             mkJWTConfig "frontend" ["cdn"] "frontend.token"] "")))
           (mkJWTConfig "frontend" ["cdn"] "frontend.token")).
  right. left.
Defined.

(** X15: [mapKeysToString] does not depend on the order in which the [range]
    over the map yields the keys: whatever that order, the keys come out
    joined in ascending order. An empty map gives the empty string. *)
Theorem mapKeysToString_order_independent {V : Type} (myMap : gmap string V)
    (order : list string) :
  order ≡ₚ (map_to_list myMap).*1 ->
  mapKeysToString_from order = mapKeysToString myMap
  /\ Sorted String.le (Sort order)
  /\ Sort order ≡ₚ (map_to_list myMap).*1
  /\ mapKeysToString (∅ : gmap string V) = EmptyString.
Proof.
  intros Hp. unfold mapKeysToString, mapKeysToString_from, Sort.
  assert (Heq : merge_sort String.le order = merge_sort String.le (map_to_list myMap).*1).
  { apply (Sorted_unique String.le); [apply Sorted_merge_sort; apply _..|].
    rewrite !merge_sort_Permutation. exact Hp. }
  split; [rewrite Heq; reflexivity|].
  split; [apply Sorted_merge_sort; apply _|].
  split; [rewrite merge_sort_Permutation; exact Hp|].
  rewrite map_to_list_empty. reflexivity.
Qed.

Lemma mapKeysToString_order_independent_witness :
  mapKeysToString_from ["cmd"; "svid_file_name"; "cert_dir"]
  = mapKeysToString
      (<["cmd" := 1]> (<["cert_dir" := 2]> (<["svid_file_name" := 3]> (∅ : gmap string Z)))).
Proof.
  apply (mapKeysToString_order_independent
           (<["cmd" := 1]> (<["cert_dir" := 2]> (<["svid_file_name" := 3]> ∅)))
           ["cmd"; "svid_file_name"; "cert_dir"]).
  apply (bool_decide_unpack _). vm_compute. reflexivity.
Defined.

Example mapKeysToString_sorted :
  mapKeysToString
    (<["cmd" := 1]> (<["cert_dir" := 2]> (<["svid_file_name" := 3]> (∅ : gmap string Z))))
  = "cert_dir,cmd,svid_file_name".
Proof. vm_compute. reflexivity. Qed.

End ConfigSidecar.

(* ===================================================================== *)
(** * Run modes                                                           *)
(* ===================================================================== *)

Module ModeSpec.
Import Cfg Sidecar Invariant Modes CycleFacts.

(** X16: A [ParallelRequests] that is not positive, negative values
    included, selects the plain modes: [RunDaemon] starts one watch task
    per enabled step of a cycle, in the same order, and no poll task,
    and [Run] performs one cycle, returning nil exactly when every
    enabled step succeeded. A positive one makes the poll task the only
    task. An error of [setupClients] is returned as it is by both, a
    cancellation too. *)
Theorem run_modes (cfg : Config) :
  (ParallelRequests cfg <= 0 ->
   daemonTasks cfg = watcherOf <$> enabledSteps cfg
   /\ forall rtip result,
        Run cfg None rtip result = None <->
        Forall (fun step => result step = None) (enabledSteps cfg))
  /\ (0 < ParallelRequests cfg ->
      daemonTasks cfg = [runParallelDaemon]
      /\ forall rtip result, Run cfg None rtip result = rtip (ParallelRequests cfg))
  /\ (forall e rtip result RunTasks,
        Run cfg (Some e) rtip result = Some e /\ RunDaemon cfg (Some e) RunTasks = Some e).
Proof.
  split; [|split].
  - intros Hle. unfold daemonTasks, Run, enabledSteps.
    destruct (Z.ltb_spec 0 (ParallelRequests cfg)) as [Hlt|_]; [lia|]. split.
    + destruct (x509Enabled cfg), (jwtBundleEnabled cfg), (jwtSVIDsEnabled cfg); reflexivity.
    + intros rtip result. rewrite fetchAllCredentials_cycle. apply cycle_success.
  - intros Hlt. unfold daemonTasks, Run.
    destruct (Z.ltb_spec 0 (ParallelRequests cfg)) as [_|Hle]; [|lia].
    split; reflexivity.
  - intros e rtip result RunTasks. split; reflexivity.
Qed.

Lemma run_modes_witness :
  daemonTasks
    (mkConfig "" "" "" "/certs" "SIGHUP" "svid.pem" "svid_key.pem" "svid_bundle.pem"
       [] "jwt_bundle.json" (-3) "" false)
  = [watchX509Context; watchJWTBundles].
Proof.
  apply (proj1 (run_modes
                  (mkConfig "" "" "" "/certs" "SIGHUP" "svid.pem" "svid_key.pem"
                     "svid_bundle.pem" [] "jwt_bundle.json" (-3) "" false))).
  vm_compute. discriminate.
Defined.

Lemma worker_cycles (rounds : list (option error * bool)) :
  (worker rounds).1 = S (openRounds rounds)
  /\ ((worker rounds).2 = true <-> exists round, round ∈ rounds /\ round.2 = true).
Proof.
  induction rounds as [|[err [|]] rounds [IH1 IH2]]; cbn [worker openRounds].
  - split; [reflexivity|]. split; [discriminate|]. intros (r & Hr & _). inversion Hr.
  - split; [reflexivity|]. split; [|reflexivity]. intros _.
    exists (err, true). split; [left|reflexivity].
  - destruct (worker rounds) as [cycles returned]. cbn [fst snd] in *.
    split; [rewrite IH1; reflexivity|]. rewrite IH2. split.
    + intros (r & Hr & Hd). exists r. split; [right; exact Hr|exact Hd].
    + intros (r & Hr & Hd). apply elem_of_cons in Hr as [->|Hr]; [discriminate|eauto].
Qed.

(** X17: A worker of the poll daemon runs one cycle more than the number of
    times it found the context still open: at least one full cycle, also
    when the context is cancelled before it starts. It returns exactly
    when it has seen the context cancelled, and what its cycles return,
    errors included, changes nothing of this. *)
Theorem worker_spec (rounds : list (option error * bool)) :
  (worker rounds).1 = S (openRounds rounds)
  /\ (1 <= (worker rounds).1 <= S (length rounds))%nat
  /\ ((worker rounds).2 = true <-> exists round, round ∈ rounds /\ round.2 = true)
  /\ worker rounds = worker ((fun round => (None, round.2)) <$> rounds).
Proof.
  destruct (worker_cycles rounds) as [Hc Hr].
  split; [exact Hc|]. split; [|split; [exact Hr|]].
  - rewrite Hc. clear Hc Hr. split; [lia|]. apply le_n_S.
    induction rounds as [|[err [|]] rounds IH]; simpl; lia.
  - clear Hc Hr. induction rounds as [|[err [|]] rounds IH]; cbn [worker fmap list_fmap snd].
    + reflexivity.
    + reflexivity.
    + change (list_fmap _ _ _ rounds) with ((fun round : option error * bool => (@None error, round.2)) <$> rounds).
      rewrite IH. reflexivity.
Qed.

Lemma worker_witness :
  (worker [(Some Scenario.unavailable, false); (None, true)]).2 = true.
Proof.
  apply (proj1 (proj2 (proj2 (worker_spec [(Some Scenario.unavailable, false); (None, true)])))).
  exists (None, true). split; [right; left|reflexivity].
Defined.

End ModeSpec.

(* ===================================================================== *)
(** * More on the argument string                                         *)
(* ===================================================================== *)

Module ArgsMore.
Import Csv Args Quoting ArgsFacts.

Lemma readRecord_nonempty (comma : ascii) (line : list ascii) :
  forall pos field fields l,
    readRecord comma pos field fields line = inl l -> l <> [].
Proof.
  assert (Hend : forall field fields l,
             @inl _ error (rev (endField field fields)) = inl l -> l <> []).
  { intros field fields l [= <-]. unfold endField. cbn [rev].
    intros H. apply app_eq_nil in H as [_ H]. discriminate. }
  induction line as [|c rest IH]; intros pos field fields l.
  - cbn [readRecord]. destruct pos; try apply Hend. discriminate.
  - cbn [readRecord]. destruct pos.
    + destruct (Ascii.eqb c quote); [apply IH|].
      destruct (Ascii.eqb c comma); [apply IH|].
      destruct (Ascii.eqb c LF); [apply Hend|apply IH].
    + destruct (Ascii.eqb c quote); [discriminate|].
      destruct (Ascii.eqb c comma); [apply IH|].
      destruct (Ascii.eqb c LF); [apply Hend|apply IH].
    + destruct (Ascii.eqb c quote); apply IH.
    + destruct (Ascii.eqb c quote); [apply IH|].
      destruct (Ascii.eqb c comma); [apply IH|].
      destruct (Ascii.eqb c LF); [apply Hend|discriminate].
Qed.

Lemma split_length (sep : ascii) (line field : list ascii) :
  length (split sep field line) = S (length (filter (fun c => c = sep) line)).
Proof.
  revert field. induction line as [|c rest IH]; intros field; [reflexivity|].
  cbn [split]. rewrite filter_cons.
  destruct (Ascii.eqb_spec c sep) as [->|Hne].
  - rewrite decide_True by reflexivity. cbn [length]. rewrite IH. reflexivity.
  - rewrite decide_False by exact Hne. apply IH.
Qed.

(** X18: Whenever [getCmdArgs] succeeds on a string that is not empty it
    returns at least one argument; on a string without quotes and line
    ends it succeeds with one argument more than the string has spaces,
    so that a leading, a trailing or a doubled space yields an empty
    argument. *)
Theorem getCmdArgs_argument_count :
  (forall args cmdArgs, args <> EmptyString ->
     getCmdArgs args = inl cmdArgs -> cmdArgs <> [])
  /\ (forall args, args <> EmptyString ->
        Forall (fun c => c <> quote /\ c <> CR /\ c <> LF) (String.list_ascii_of_string args) ->
        exists cmdArgs,
          getCmdArgs args = inl cmdArgs
          /\ length cmdArgs
             = S (length (filter (fun c => c = space) (String.list_ascii_of_string args)))).
Proof.
  split.
  - intros args cmdArgs Hne. rewrite getCmdArgs_nonempty by exact Hne.
    unfold Read. destruct (validDelim space); [|discriminate].
    destruct (skipEmptyLines _) as [|c rest]; [discriminate|].
    apply readRecord_nonempty.
  - intros args Hne Hall. rewrite getCmdArgs_nonempty by exact Hne.
    rewrite Read_plain by assumption.
    eexists. split; [reflexivity|]. apply split_length.
Qed.

Lemma getCmdArgs_argument_count_witness :
  exists cmdArgs, getCmdArgs " -v " = inl cmdArgs /\ length cmdArgs = 3%nat.
Proof.
  destruct (proj2 getCmdArgs_argument_count " -v ") as (cmdArgs & Hc & Hl).
  - discriminate.
  - repeat constructor; discriminate.
  - exists cmdArgs. split; [exact Hc|exact Hl].
Defined.

Lemma escape_no_CR (field : list ascii) :
  Forall (fun c => c <> CR) field -> Forall (fun c => c <> CR) (escape field).
Proof.
  induction 1 as [|c rest Hc _ IH]; [constructor|].
  simpl. destruct (Ascii.eqb c quote); repeat constructor; try discriminate; assumption.
Qed.

Lemma encode_no_CR (comma : ascii) (fields : list (list ascii)) :
  comma <> CR -> Forall (Forall (fun c => c <> CR)) fields ->
  Forall (fun c => c <> CR) (encode comma fields).
Proof.
  intros Hcomma. induction 1 as [|field rest Hf Hrest IH]; [constructor|].
  assert (Hq : Forall (fun c => c <> CR) (quoted field)).
  { unfold quoted. constructor; [discriminate|]. apply Forall_app. split.
    - apply escape_no_CR, Hf.
    - constructor; [discriminate|constructor]. }
  cbn [encode]. destruct rest as [|field' rest']; [exact Hq|].
  apply Forall_app. split; [exact Hq|]. constructor; [exact Hcomma|exact IH].
Qed.

(** Inside quotes, an escaped field followed by the closing quote is
    read back as the field. *)
Lemma readRecord_escaped (comma : ascii) (body rest acc : list ascii) (fields : list string) :
  readRecord comma Quoted acc fields (escape body ++ quote :: rest)
  = readRecord comma QuoteSeen (rev body ++ acc) fields rest.
Proof.
  revert acc. induction body as [|c body IH]; intros acc.
  - reflexivity.
  - cbn [escape]. destruct (Ascii.eqb_spec c quote) as [->|Hne].
    + cbn [app readRecord]. rewrite ?Ascii.eqb_refl. cbn [readRecord].
      rewrite ?Ascii.eqb_refl. rewrite IH. cbn [rev]. rewrite <- app_assoc. reflexivity.
    + cbn [app readRecord]. destruct (Ascii.eqb_spec c quote); [contradiction|].
      rewrite IH. cbn [rev]. rewrite <- app_assoc. reflexivity.
Qed.

Lemma readRecord_encode (comma : ascii) (fs : list (list ascii)) :
  comma <> quote -> fs <> [] ->
  forall fields,
    readRecord comma FieldStart [] fields (encode comma fs)
    = inl (rev fields ++ (String.string_of_list_ascii <$> fs)).
Proof.
  intros Hcomma. induction fs as [|f fs IH]; intros Hne fields; [contradiction|].
  cbn [encode]. destruct fs as [|f' fs'].
  - unfold quoted. cbn [readRecord]. rewrite ?Ascii.eqb_refl.
    rewrite readRecord_escaped. cbn [readRecord]. unfold endField. cbn [rev fmap list_fmap].
    rewrite app_nil_r, rev_involutive. reflexivity.
  - unfold quoted at 1. cbn [app readRecord]. rewrite ?Ascii.eqb_refl.
    rewrite <- app_assoc. cbn [app]. rewrite readRecord_escaped. cbn [readRecord].
    destruct (Ascii.eqb_spec comma quote); [contradiction|].
    rewrite ?Ascii.eqb_refl. rewrite IH by discriminate.
    unfold endField. cbn [rev]. rewrite app_nil_r, rev_involutive, <- app_assoc.
    reflexivity.
Qed.

(** X19: Quoting round trip: an argument list that is not empty and holds
    no carriage return, written with every argument between double
    quotes, its quotes doubled, and one space between two arguments, is
    read back by [getCmdArgs] as it was: spaces, quotes and line feeds
    inside arguments survive, and so do empty arguments. *)
Theorem getCmdArgs_quoting_round_trip (fields : list (list ascii)) :
  fields <> [] ->
  Forall (Forall (fun c => c <> CR)) fields ->
  getCmdArgs (String.string_of_list_ascii (encode space fields))
  = inl (String.string_of_list_ascii <$> fields).
Proof.
  intros Hne Hall.
  assert (Hq : exists rest, encode space fields = quote :: rest).
  { destruct fields as [|f [|f' fs]]; [contradiction| |]; cbn [encode]; unfold quoted;
      eexists; reflexivity. }
  destruct Hq as [rest Hq].
  rewrite getCmdArgs_nonempty by (rewrite Hq; discriminate).
  unfold Read. simpl validDelim. cbv iota.
  rewrite String.list_ascii_of_string_of_list_ascii.
  rewrite readLines_no_CR by (apply encode_no_CR; [discriminate|exact Hall]).
  rewrite Hq, skipEmptyLines_record by discriminate. rewrite <- Hq.
  rewrite readRecord_encode by (try discriminate; exact Hne). reflexivity.
Qed.

(** A shell command of three words and an empty argument. *)
Lemma getCmdArgs_quoting_round_trip_witness :
  getCmdArgs
    (String.string_of_list_ascii
       (encode space [String.list_ascii_of_string "-c";
                      String.list_ascii_of_string "echo hello world"; []]))
  = inl ["-c"; "echo hello world"; ""].
Proof.
  apply (getCmdArgs_quoting_round_trip
           [String.list_ascii_of_string "-c";
            String.list_ascii_of_string "echo hello world"; []]).
  - discriminate.
  - repeat constructor; discriminate.
Defined.

End ArgsMore.

(* ===================================================================== *)
(** * A token that has already expired                                    *)
(* ===================================================================== *)

Module ExpiredToken.
Import Cfg Time Retry Refresh Sidecar Invariant Modes DurationFacts RefreshFacts.

Lemma getRefreshInterval_pos_iff (T : Time) (svid : SVID) :
  0 < getRefreshInterval T svid <-> T - 2 * Second < svid_Expiry svid.
Proof.
  rewrite getRefreshInterval_exact. unfold Until, Sub, minDuration, maxDuration,
    minInt64, maxInt64, Second. cbv zeta.
  set (d := svid_Expiry svid - T).
  assert (Hq : forall x, 0 < x ÷ 2 + 1000000000 <-> -2000000000 < x).
  { intros x. pose proof (Z.quot_rem x 2 ltac:(lia)) as Hx.
    pose proof (Z.rem_bound_abs x 2 ltac:(lia)) as Hr.
    destruct (Z_lt_le_dec x 0) as [Hneg|Hpos].
    - pose proof (Z.rem_nonpos x 2 ltac:(lia) ltac:(lia)). lia.
    - pose proof (Z.rem_nonneg x 2 ltac:(lia) ltac:(lia)). lia. }
  destruct (Z.ltb_spec d (- 2 ^ 63)); [rewrite Hq; lia|].
  destruct (Z.ltb_spec (2 ^ 63 - 1) d); rewrite Hq; lia.
Qed.

(** X20: [getRefreshInterval] is positive exactly when the token expires
    later than two seconds before the clock reading. When an update
    succeeds with a first token that expired two seconds ago or
    earlier, [updateJWTSVID] panics in [time.NewTicker], and so does a
    later tick in [ticker.Reset]. *)
Theorem expired_token_panics (path_Join : string -> string -> string) (fn : string)
    (env : JWTEnv) (jwtSVID : SVID) (rest : list SVID) :
  fetchJWTSVIDs env = inl (jwtSVID :: rest) ->
  WriteJWTSVID_err env (jwtSVID :: rest) = None ->
  (0 < getRefreshInterval (Now env) jwtSVID <-> Now env - 2 * Second < svid_Expiry jwtSVID)
  /\ (svid_Expiry jwtSVID <= Now env - 2 * Second ->
      (forall w, updateJWTSVID_start path_Join w fn env
                 = Panicked "non-positive interval for NewTicker")
      /\ (forall l, updateJWTSVID_tick path_Join l fn env
                    = Panicked "non-positive interval for Ticker.Reset")).
Proof.
  intros Hf Hw. split; [apply getRefreshInterval_pos_iff|].
  intros Hexp.
  assert (Hle : (getRefreshInterval (Now env) jwtSVID <=? 0) = true).
  { apply Z.leb_le. pose proof (getRefreshInterval_pos_iff (Now env) jwtSVID). lia. }
  split.
  - intros w. unfold updateJWTSVID_start, performJWTSVIDUpdate. rewrite Hf, Hw.
    cbn [index0 bind]. unfold NewTicker. rewrite Hle. reflexivity.
  - intros l. unfold updateJWTSVID_tick, performJWTSVIDUpdate. rewrite Hf, Hw.
    cbn [index0 bind]. unfold ticker_Reset. rewrite Hle. reflexivity.
Qed.

(** The clock reads five seconds after the expiry of the token. *)
Lemma expired_token_panics_witness :
  updateJWTSVID_start Scenario.join (New Scenario.join Scenario.emptyHeap Scenario.cfgJWT)
    "jwt_svid.token"
    (mkJWTEnv (inl [Scenario.svid (300 * Second)]) (fun _ => None) (fun _ => None)
       (305 * Second))
  = Panicked "non-positive interval for NewTicker".
Proof.
  apply (expired_token_panics Scenario.join "jwt_svid.token"
           (mkJWTEnv (inl [Scenario.svid (300 * Second)]) (fun _ => None) (fun _ => None)
              (305 * Second))
           (Scenario.svid (300 * Second)) [] eq_refl eq_refl).
  vm_compute. discriminate.
Defined.

End ExpiredToken.
